(** * video2text: frame sampling, perceptual-hash deduplication, slide text

    A shallow embedding of [video2text.py].  The three functions that carry
    the pipeline's logic are embedded:

    - [extract_frames]            (sampling every n-th decoded frame),
    - [get_unique_slides]         (greedy deduplication on perceptual hashes),
    - [extract_text_from_slides]  (pairing every slide with its OCR text),

    and around them [download_video], [create_ppt] and [main], which runs
    the stages one after the other and reports to the Streamlit page.

    OpenCV, PIL, imagehash, pytesseract and tempfile are libraries outside
    the repository.  What the code needs from them appears as parameters:
    the perceptual hash of a frame, the OCR result of a frame, the names of
    temporary files.  The parts whose behaviour the code relies on
    (the subtraction of two image hashes, [str.strip], the [%] operator and
    [VideoCapture.read]) are written out. *)

From stdpp Require Import base list numbers sorting strings.
From Stdlib Require Import ZArith NArith Lia.

Local Open Scope Z_scope.

(** ** Image hashes

    [imagehash.phash] returns an [ImageHash] holding an 8x8 boolean array.
    The array is kept here as the number whose bit [i] is cell [i] of the
    flattened array.  [h1 - h2] is
    [numpy.count_nonzero(h1.hash.flatten() != h2.hash.flatten())]: the
    number of cells in which the two arrays differ.  ([__sub__] raises on
    arrays of different sizes; the hashes of one run all have the size
    [phash] gives them, and as numbers any two of them can be compared.) *)
Module ImageHash.

Definition t : Type := N.

Fixpoint count_nonzero_pos (p : positive) : nat :=
  match p with
  | xH => 1
  | xO q => count_nonzero_pos q
  | xI q => S (count_nonzero_pos q)
  end.

Definition count_nonzero (n : N) : nat :=
  match n with
  | N0 => 0
  | Npos p => count_nonzero_pos p
  end.

(** Number of differing cells (the Hamming distance). *)
Definition hamming (h1 h2 : t) : nat := count_nonzero (N.lxor h1 h2).

(** [ImageHash.__sub__]. *)
Definition sub (h1 h2 : t) : Z := Z.of_nat (hamming h1 h2).

End ImageHash.

(** ** get_unique_slides *)

(** The two lists the loop of [get_unique_slides] appends to. *)
Record dedup_state (Frame : Type) : Type := DedupState {
  hashes : list ImageHash.t;
  unique_frames : list Frame
}.
Arguments DedupState {Frame} _ _.
Arguments hashes {Frame} _.
Arguments unique_frames {Frame} _.

(** [all(abs(hash_val - h) > hash_difference_threshold for h in hashes)] *)
Definition sufficiently_different
    (hash_difference_threshold : Z) (hashes : list ImageHash.t)
    (hash_val : ImageHash.t) : bool :=
  forallb (λ h, hash_difference_threshold <? Z.abs (ImageHash.sub hash_val h))
          hashes.

(** One iteration of [for frame in frames].  [phash frame] stands for
    [imagehash.phash(Image.fromarray(cv2.cvtColor(frame, cv2.COLOR_BGR2RGB)))]. *)
Definition dedup_step {Frame} (phash : Frame → ImageHash.t)
    (hash_difference_threshold : Z)
    (st : dedup_state Frame) (frame : Frame) : dedup_state Frame :=
  let hash_val := phash frame in
  if sufficiently_different hash_difference_threshold (hashes st) hash_val
  then DedupState (hashes st ++ [hash_val]) (unique_frames st ++ [frame])
  else st.

Definition dedup_loop {Frame} (phash : Frame → ImageHash.t)
    (hash_difference_threshold : Z)
    (st : dedup_state Frame) (frames : list Frame) : dedup_state Frame :=
  foldl (dedup_step phash hash_difference_threshold) st frames.

Definition get_unique_slides {Frame} (phash : Frame → ImageHash.t)
    (frames : list Frame) (hash_difference_threshold : Z) : list Frame :=
  unique_frames
    (dedup_loop phash hash_difference_threshold (DedupState [] []) frames).

(** The default of the keyword argument. *)
Definition default_hash_difference_threshold : Z := 5.

(** Positions of the retained frames in the input.  The source returns the
    frames only; their positions are read off by running the very same
    function on the frames paired with their position ([enumerate]), the
    hash looking at the frame alone. *)
Definition enumerate {A} (l : list A) : list (nat * A) := imap pair l.

Definition kept_indices {Frame} (phash : Frame → ImageHash.t)
    (frames : list Frame) (hash_difference_threshold : Z) : list nat :=
  (get_unique_slides (phash ∘ snd) (enumerate frames)
                     hash_difference_threshold).*1.

(** Forgetting a decoration [g] of the frames held in a loop state. *)
Definition forget {A B} (g : A → B) (st : dedup_state A) : dedup_state B :=
  DedupState (hashes st) (g <$> unique_frames st).

(** ** Results and exceptions

    A Python call either returns a value or raises. *)
Inductive result (E A : Type) : Type :=
  | Ok (a : A)
  | Raise (e : E).
Arguments Ok {E A} _.
Arguments Raise {E A} _.

(** ** extract_frames *)

(** The only exception the body of [extract_frames] can raise by itself. *)
Inductive arith_exn : Type := ZeroDivisionError.

(** Python's [a % b] on integers: the remainder has the sign of the divisor,
    as [Z.modulo] has; a zero divisor raises. *)
Definition py_mod (a b : Z) : result arith_exn Z :=
  if b =? 0 then Raise ZeroDivisionError else Ok (a `mod` b).

(** A [cv2.VideoCapture] on a file: whether it is open, and the frames it
    has not decoded yet. *)
Record VideoCapture (Frame : Type) : Type := MkCapture {
  isOpened : bool;
  undecoded : list Frame
}.
Arguments MkCapture {Frame} _ _.
Arguments isOpened {Frame} _.
Arguments undecoded {Frame} _.

(** [cv2.VideoCapture(video_path)] on a readable file with frames [fs]. *)
Definition open_video {Frame} (fs : list Frame) : VideoCapture Frame :=
  MkCapture true fs.

(** [cap.read()]: [None] is [ret = False]. *)
Definition read {Frame} (cap : VideoCapture Frame)
    : option Frame * VideoCapture Frame :=
  match undecoded cap with
  | [] => (None, cap)
  | frame :: rest => (Some frame, MkCapture (isOpened cap) rest)
  end.

(** [cap.release()] *)
Definition release {Frame} (cap : VideoCapture Frame) : VideoCapture Frame :=
  MkCapture false (undecoded cap).

(** The [while] loop on an open capture, by recursion on the frames still to
    decode; every round is one [cap.read()].  The result comes with the
    frames left undecoded when the loop is left. *)
Fixpoint sample_loop {Frame} (frame_interval : Z) (pending : list Frame)
    (frame_id : Z) (frames : list Frame)
    : result arith_exn (list Frame) * list Frame :=
  match pending with
  | [] => (Ok frames, [])                        (* not ret: break *)
  | frame :: rest =>
      match py_mod frame_id frame_interval with
      | Raise e => (Raise e, rest)
      | Ok r =>
          sample_loop frame_interval rest (frame_id + 1)
            (if r =? 0 then frames ++ [frame] else frames)
      end
  end.

(** [extract_frames], given the capture [cv2.VideoCapture(video_path)]
    returned.  An exception leaves the function before [cap.release()]. *)
Definition extract_frames {Frame} (cap : VideoCapture Frame)
    (frame_interval : Z)
    : result arith_exn (list Frame) * VideoCapture Frame :=
  if isOpened cap then
    match sample_loop frame_interval (undecoded cap) 0 [] with
    | (Ok frames, rest) => (Ok frames, release (MkCapture true rest))
    | (Raise e, rest) => (Raise e, MkCapture true rest)
    end
  else (Ok [], release cap).

Definition default_frame_interval : Z := 30.

(** Number of frames a call has decoded, from the capture before and after. *)
Definition frames_decoded {Frame} (before after : VideoCapture Frame) : nat :=
  (length (undecoded before) - length (undecoded after))%nat.

(** ** Python strings and [str.strip]

    A [str] is a sequence of code points.  [str.strip()] without argument
    removes the leading and the trailing white space, white space being the
    code points for which [str.isspace] holds. *)
Definition pystr : Type := list N.

Definition isspace (c : N) : bool :=
  (((0x09 <=? c) && (c <=? 0x0D)) || ((0x1C <=? c) && (c <=? 0x20))
   || (c =? 0x85) || (c =? 0xA0) || (c =? 0x1680)
   || ((0x2000 <=? c) && (c <=? 0x200A))
   || (c =? 0x2028) || (c =? 0x2029) || (c =? 0x202F) || (c =? 0x205F)
   || (c =? 0x3000))%N.

Fixpoint lstrip (s : pystr) : pystr :=
  match s with
  | c :: s' => if isspace c then lstrip s' else s
  | [] => []
  end.

Definition rstrip (s : pystr) : pystr := reverse (lstrip (reverse s)).

Definition strip (s : pystr) : pystr := rstrip (lstrip s).

(** ** extract_text_from_slides

    The function threads two things through its loop: the files it has
    written so far, and the exception a call may raise. *)
Definition io (S E A : Type) : Type := S → result E A * S.

Global Instance io_ret {S E} : MRet (io S E) := λ A a s, (Ok a, s).

Global Instance io_bind {S E} : MBind (io S E) := λ A B k c s,
  match c s with
  | (Ok a, s') => k a s'
  | (Raise e, s') => (Raise e, s')
  end.

(** A call of a library function that returns or raises, without touching
    the files. *)
Definition call {S E A} (r : result E A) : io S E A := λ s, (r, s).

(** The temporary files written so far, oldest first, with their content. *)
Definition tmpfiles (Frame : Type) : Type := list (string * Frame).

(** [tempfile.NamedTemporaryFile(suffix='.png', delete=False).name]: the
    name of the next temporary file, [mktemp n] for the [n]-th one. *)
Definition named_temporary_file {Frame E} (mktemp : nat → string)
    : io (tmpfiles Frame) E string :=
  λ files, (Ok (mktemp (length files)), files).

(** [pil_image.save(name)] *)
Definition save {Frame E} (image : Frame) (name : string)
    : io (tmpfiles Frame) E unit :=
  λ files, (Ok (), files ++ [(name, image)]).

(** The loop of [extract_text_from_slides]; [image_to_string slide] stands
    for [pytesseract.image_to_string] on the converted slide. *)
Fixpoint ocr_loop {Frame E} (image_to_string : Frame → result E pystr)
    (mktemp : nat → string) (slides : list Frame)
    (slide_texts : list (string * pystr))
    : io (tmpfiles Frame) E (list (string * pystr)) :=
  match slides with
  | [] => mret slide_texts
  | slide :: rest =>
      text ← call (image_to_string slide);
      name ← named_temporary_file mktemp;
      _ ← save slide name;
      ocr_loop image_to_string mktemp rest (slide_texts ++ [(name, strip text)])
  end.

Definition extract_text_from_slides {Frame E}
    (image_to_string : Frame → result E pystr) (mktemp : nat → string)
    (slides : list Frame)
    : io (tmpfiles Frame) E (list (string * pystr)) :=
  ocr_loop image_to_string mktemp slides [].

(** ** Files, the presentation and the Streamlit page

    [create_ppt] and [main] read back the files [extract_text_from_slides]
    wrote, write a presentation, download a video into a temporary
    directory and talk to the Streamlit page.  All of it is kept in one
    record of explicit state. *)

(** Reading the file [name]: what was written last under that name. *)
Fixpoint read_file {A} (files : list (string * A)) (name : string) : option A :=
  match files with
  | [] => None
  | (n, content) :: rest =>
      match read_file rest name with
      | Some c => Some c
      | None => if bool_decide (n = name) then Some content else None
      end
  end.

(** Removing the file [name]. *)
Definition remove_file {A} (files : list (string * A)) (name : string)
    : list (string * A) :=
  filter (λ f, f.1 ≠ name) files.

(** [pptx.util.Inches (n / d)], in English Metric Units. *)
Definition Inches (n d : Z) : Z := n * 914400 / d.

Record box : Type := Box {
  box_left : Z; box_top : Z; box_width : Z; box_height : Z
}.

(** A slide as [create_ppt] makes it: its layout (an index into
    [prs.slide_layouts]), a picture and a text box.  A new text box holds
    one empty paragraph; [add_paragraph] adds one after it. *)
Record ppt_slide (Frame : Type) : Type := PptSlide {
  slide_layout : nat;
  picture : Frame;
  picture_box : box;
  textbox_box : box;
  paragraphs : list pystr
}.
Arguments PptSlide {Frame} _ _ _ _ _.
Arguments slide_layout {Frame} _.
Arguments picture {Frame} _.
Arguments picture_box {Frame} _.
Arguments textbox_box {Frame} _.
Arguments paragraphs {Frame} _.

Definition Presentation (Frame : Type) : Type := list (ppt_slide Frame).

(** The calls that show something: Streamlit's, and [print]. *)
Inductive ui_call (Frame : Type) : Type :=
  | st_title (body : string)
  | st_write (body : string)
  | st_text_input (label : string)
  | st_button (label : string)
  | st_spinner (text : string)
  | st_error (body : string)
  | st_success (body : string)
  | st_image (image : Frame) (caption : string)
  | st_text (body : pystr)
  | st_download_button (label : string) (data : Presentation Frame)
                       (file_name : string)
  | py_print (line : string).
Arguments st_title {Frame} _.
Arguments st_write {Frame} _.
Arguments st_text_input {Frame} _.
Arguments st_button {Frame} _.
Arguments st_spinner {Frame} _.
Arguments st_error {Frame} _.
Arguments st_success {Frame} _.
Arguments st_image {Frame} _ _.
Arguments st_text {Frame} _.
Arguments st_download_button {Frame} _ _ _.
Arguments py_print {Frame} _.

(** What the functions act on: the calls made to the page so far, the video
    files (each with the capture [cv2.VideoCapture] opens it as), the
    temporary pictures and the temporary presentations. *)
Record world (Frame : Type) : Type := World {
  ui : list (ui_call Frame);
  videos : list (string * VideoCapture Frame);
  pngs : tmpfiles Frame;
  pptxs : tmpfiles (Presentation Frame)
}.
Arguments World {Frame} _ _ _ _.
Arguments ui {Frame} _.
Arguments videos {Frame} _.
Arguments pngs {Frame} _.
Arguments pptxs {Frame} _.

(** Opening a file that is not there. *)
Inductive file_exn : Type := FileNotFoundError (name : string).

(** What can end [main]: the exceptions of the three stages. *)
Inductive main_exn (Eocr : Type) : Type :=
  | ExnArith (e : arith_exn)
  | ExnOcr (e : Eocr)
  | ExnFile (e : file_exn).
Arguments ExnArith {Eocr} _.
Arguments ExnOcr {Eocr} _.
Arguments ExnFile {Eocr} _.

(** [try: c  except Exception as e: h e] *)
Definition try_except {S E E' A} (c : io S E A) (h : E → io S E' A)
    : io S E' A :=
  λ s, match c s with
       | (Ok a, s') => (Ok a, s')
       | (Raise e, s') => h e s'
       end.

(** A computation seen from a caller with more kinds of exceptions. *)
Definition map_exn {S E E' A} (inj : E → E') (c : io S E A) : io S E' A :=
  try_except c (λ e s, (Raise (inj e), s)).

(** One call to the page. *)
Definition show {Frame E} (c : ui_call Frame) : io (world Frame) E unit :=
  λ w, (Ok (), World (ui w ++ [c]) (videos w) (pngs w) (pptxs w)).

(** A computation on the temporary pictures, run in the world. *)
Definition on_pngs {Frame E A} (c : io (tmpfiles Frame) E A)
    : io (world Frame) E A :=
  λ w, match c (pngs w) with
       | (r, files) => (r, World (ui w) (videos w) files (pptxs w))
       end.

(** A computation on the temporary presentations, run in the world. *)
Definition on_pptxs {Frame E A} (c : io (tmpfiles (Presentation Frame)) E A)
    : io (world Frame) E A :=
  λ w, match c (pptxs w) with
       | (r, files) => (r, World (ui w) (videos w) (pngs w) files)
       end.

(** Opening the picture file [name] for reading. *)
Definition open_png {Frame} (name : string) : io (world Frame) file_exn Frame :=
  λ w, match read_file (pngs w) name with
       | Some image => (Ok image, w)
       | None => (Raise (FileNotFoundError name), w)
       end.

(** Opening the presentation file [name] for reading. *)
Definition open_pptx {Frame} (name : string)
    : io (world Frame) file_exn (Presentation Frame) :=
  λ w, match read_file (pptxs w) name with
       | Some prs => (Ok prs, w)
       | None => (Raise (FileNotFoundError name), w)
       end.

(** ** download_video *)

(** [ydl.download([url])] with [outtmpl = output_path]: it raises, or it
    leaves at [output_path] the video of the [url].  [ydl_download url] is
    that outcome, the video given by the capture it opens as. *)
Definition ydl_run {Frame Edl}
    (ydl_download : string → result Edl (VideoCapture Frame))
    (url output_path : string) : io (world Frame) Edl unit :=
  λ w, match ydl_download url with
       | Ok video =>
           (Ok (), World (ui w) (videos w ++ [(output_path, video)])
                         (pngs w) (pptxs w))
       | Raise e => (Raise e, w)
       end.

(** [download_video]; [str e] is the text of the exception. *)
Definition download_video {Frame Edl E}
    (ydl_download : string → result Edl (VideoCapture Frame))
    (str : Edl → string) (url output_path : string)
    : io (world Frame) E (option string) :=
  try_except
    (_ ← ydl_run ydl_download url output_path;
     mret (Some output_path))
    (λ e,
     _ ← show (st_error
       "Failed to download video. Please check the URL or try again later.");
     _ ← show (py_print (String.append "Error: " (str e)));
     mret None).

Definition default_output_path : string := "video.mp4".

(** ** create_ppt *)

(** The slide the body of the loop adds for one record. *)
Definition ppt_slide_of {Frame} (image : Frame) (text : pystr)
    : ppt_slide Frame :=
  PptSlide 5 image
    (Box (Inches 1 1) (Inches 1 1) (Inches 17 2) (Inches 6 1))
    (Box (Inches 1 1) (Inches 13 2) (Inches 17 2) (Inches 1 1))
    [[]; text].

(** [for slide_filename, text in slide_texts]; [add_picture] opens the
    file. *)
Fixpoint ppt_loop {Frame} (slide_texts : list (string * pystr))
    (prs : Presentation Frame)
    : io (world Frame) file_exn (Presentation Frame) :=
  match slide_texts with
  | [] => mret prs
  | (slide_filename, text) :: rest =>
      image ← open_png slide_filename;
      ppt_loop rest (prs ++ [ppt_slide_of image text])
  end.

Definition create_ppt {Frame} (mktemp_pptx : nat → string)
    (slide_texts : list (string * pystr))
    : io (world Frame) file_exn string :=
  prs ← ppt_loop slide_texts [];
  ppt_temp ← on_pptxs (named_temporary_file mktemp_pptx);
  _ ← on_pptxs (save prs ppt_temp);
  mret ppt_temp.

(** ** main *)

(** Truth value of a string, and of a string or [None]. *)
Definition truthy (s : string) : bool := negb (String.eqb s "").

Definition truthy_opt (o : option string) : bool :=
  match o with
  | Some s => truthy s
  | None => false
  end.

(** [cv2.VideoCapture(video_path)]: a path with no file gives a capture
    that is not open. *)
Definition VideoCapture_of {Frame} (w : world Frame) (video_path : string)
    : VideoCapture Frame :=
  default (MkCapture false []) (read_file (videos w) video_path).

(** [extract_frames(video_path, frame_interval)] in the world: the capture
    is local to the call, the file stays as it is. *)
Definition extract_frames_at {Frame} (video_path : string) (frame_interval : Z)
    : io (world Frame) arith_exn (list Frame) :=
  λ w, ((extract_frames (VideoCapture_of w video_path) frame_interval).1, w).

(** [with tempfile.TemporaryDirectory() as temp_dir]: however the body ends,
    the directory goes, and with it the one file the body puts there. *)
Definition with_temporary_directory {Frame E A} (temp_video_path : string)
    (body : io (world Frame) E A) : io (world Frame) E A :=
  λ w, match body w with
       | (r, w') =>
           (r, World (ui w') (remove_file (videos w') temp_video_path)
                     (pngs w') (pptxs w'))
       end.

(** The loop showing the slides and their text. *)
Fixpoint show_slides {Frame} (slide_texts : list (string * pystr))
    : io (world Frame) file_exn unit :=
  match slide_texts with
  | [] => mret ()
  | (slide_filename, text) :: rest =>
      image ← open_png slide_filename;
      _ ← show (st_image image "Slide Image");
      _ ← show (st_write "Extracted Text:");
      _ ← show (st_text text);
      _ ← show (st_write "---");
      show_slides rest
  end.

(** One run of the script.  [youtube_url] is what the text input holds and
    [button] whether the button was pressed; [temp_video_path] is
    [os.path.join(temp_dir, "video.mp4")]. *)
Definition main {Frame Eocr Edl}
    (phash : Frame → ImageHash.t)
    (image_to_string : Frame → result Eocr pystr)
    (mktemp mktemp_pptx : nat → string)
    (ydl_download : string → result Edl (VideoCapture Frame))
    (str : Edl → string)
    (temp_video_path : string)
    (youtube_url : string) (button : bool)
    : io (world Frame) (main_exn Eocr) unit :=
  _ ← show (st_title "YouTube Video Slide Extractor");
  _ ← show (st_write "Enter a YouTube video link, and this app will extract unique slides along with any text on them.");
  _ ← show (st_text_input "YouTube Video URL:");
  if truthy youtube_url then
    _ ← show (st_button "Process Video");
    if button then
      with_temporary_directory temp_video_path (
        _ ← show (st_spinner "Downloading video...");
        video_path ← download_video ydl_download str youtube_url temp_video_path;
        if negb (truthy_opt video_path) then
          show (st_error "Video download failed. Please check the URL.")
        else
          _ ← show (st_spinner "Extracting frames...");
          frames ← map_exn ExnArith
                     (extract_frames_at (default "" video_path) 30);
          _ ← show (st_spinner "Detecting unique slides...");
          let unique_slides :=
            get_unique_slides phash frames default_hash_difference_threshold in
          _ ← show (st_spinner "Extracting text from slides...");
          slide_texts ← map_exn ExnOcr
                          (on_pngs (extract_text_from_slides
                                      image_to_string mktemp unique_slides));
          ppt_filename ← map_exn ExnFile (create_ppt mktemp_pptx slide_texts);
          _ ← show (st_success "Processing complete!");
          _ ← show (st_write "Extracted Slides and Text:");
          _ ← map_exn ExnFile (show_slides slide_texts);
          prs ← map_exn ExnFile (open_pptx ppt_filename);
          show (st_download_button "Download PowerPoint Presentation" prs
                                   "presentation.pptx"))
    else mret ()
  else mret ().

(** The four calls one round of the loop of [show_slides] makes. *)
Definition slide_calls {Frame} (image : Frame) (text : pystr)
    : list (ui_call Frame) :=
  [st_image image "Slide Image"; st_write "Extracted Text:";
   st_text text; st_write "---"].

(** The calls [main] makes to the page, in three runs: up to the download,
    between the download and the text extraction, and once the presentation
    is saved. *)
Definition calls_before_download {Frame} : list (ui_call Frame) :=
  [st_title "YouTube Video Slide Extractor";
   st_write "Enter a YouTube video link, and this app will extract unique slides along with any text on them.";
   st_text_input "YouTube Video URL:";
   st_button "Process Video";
   st_spinner "Downloading video..."].

Definition calls_before_extraction {Frame} : list (ui_call Frame) :=
  [st_spinner "Extracting frames...";
   st_spinner "Detecting unique slides...";
   st_spinner "Extracting text from slides..."].

Definition calls_after_ppt {Frame} : list (ui_call Frame) :=
  [st_success "Processing complete!";
   st_write "Extracted Slides and Text:"].

(** ** The invariant of the loop of [get_unique_slides] *)

(** Every frame of [us] is further than [t] from every frame before it. *)
Definition far_apart {Frame} (phash : Frame → ImageHash.t) (t : Z)
    (us : list Frame) : Prop :=
  ∀ p q a b, (p < q)%nat → us !! p = Some a → us !! q = Some b →
    t < Z.of_nat (ImageHash.hamming (phash b) (phash a)).

(** What the loop maintains: [hashes] holds the hashes of [unique_frames],
    which are far apart. *)
Definition dedup_inv {Frame} (phash : Frame → ImageHash.t) (t : Z)
    (st : dedup_state Frame) : Prop :=
  hashes st = phash <$> unique_frames st
  ∧ far_apart phash t (unique_frames st).

(** ** Sample data *)

(** Four hashes with 32 cells set each.  Distances: A-B 6, B-C 4, B-D 4,
    A-C 10, A-D 10, C-D 8. *)
Definition hash_A : ImageHash.t := 0x00FFFFFFFF%N.
Definition hash_B : ImageHash.t := 0x07FFFFFFF8%N.
Definition hash_C : ImageHash.t := 0x1FFFFFFFE0%N.
Definition hash_D : ImageHash.t := 0x67FFFFFF98%N.

(** An OCR that raises on slide 1 and reads the same line, with white space
    around it, on every other slide; temporary files numbered in order. *)
Inductive ocr_exn : Type := TesseractError.

(** [" Hello\n\f"] and ["Hello"] *)
Definition text_hello_raw : pystr := [32; 72; 101; 108; 108; 111; 10; 12]%N.
Definition text_hello : pystr := [72; 101; 108; 108; 111]%N.

Definition example_ocr (slide : nat) : result ocr_exn pystr :=
  match slide with
  | 1%nat => Raise TesseractError
  | _ => Ok text_hello_raw
  end.

Definition example_mktemp (n : nat) : string :=
  String.append "tmp" (String (Ascii.ascii_of_nat (48 + n)) ".png").

(** A run of [main]: a video of 70 frames named by their position, the
    first 45 showing one picture and the rest another; a download that
    succeeds for one URL only; an OCR that raises on frame 60. *)
Definition example_video : VideoCapture nat := open_video (seq 0 70).

Definition example_phash (frame : nat) : ImageHash.t :=
  if Nat.ltb frame 45 then hash_A else hash_C.

Definition example_ydl (url : string) : result string (VideoCapture nat) :=
  if String.eqb url "https://youtu.be/ok" then Ok example_video
  else Raise "HTTP Error 404"%string.

Definition example_ocr_late (slide : nat) : result ocr_exn pystr :=
  if Nat.eqb slide 60 then Raise TesseractError else Ok text_hello_raw.

Definition example_mktemp_pptx (n : nat) : string :=
  String.append "deck" (String (Ascii.ascii_of_nat (48 + n)) ".pptx").

Definition example_world : world nat := World [] [] [] [].

(** * Properties of the deduplicator *)

Section image_hash_facts.

Lemma hamming_sym (h1 h2 : ImageHash.t) :
  ImageHash.hamming h1 h2 = ImageHash.hamming h2 h1.
Proof. unfold ImageHash.hamming. by rewrite N.lxor_comm. Qed.

Lemma hamming_self (h : ImageHash.t) : ImageHash.hamming h h = 0%nat.
Proof. unfold ImageHash.hamming. by rewrite N.lxor_nilpotent. Qed.

(** The [abs] of the source changes nothing: a count is never negative. *)
Lemma abs_sub_hamming (h1 h2 : ImageHash.t) :
  Z.abs (ImageHash.sub h1 h2) = Z.of_nat (ImageHash.hamming h1 h2).
Proof. unfold ImageHash.sub. lia. Qed.

Lemma sufficiently_different_spec t hs v :
  sufficiently_different t hs v = true ↔
  ∀ h, h ∈ hs → t < Z.of_nat (ImageHash.hamming v h).
Proof.
  unfold sufficiently_different.
  rewrite <- Is_true_true, forallb_True, Forall_forall.
  split; intros H h Hh; specialize (H h Hh).
  - apply Is_true_true, Z.ltb_lt in H. by rewrite abs_sub_hamming in H.
  - apply Is_true_true, Z.ltb_lt. by rewrite abs_sub_hamming.
Qed.

End image_hash_facts.

Section dedup_loop_facts.
Context {Frame : Type} (phash : Frame → ImageHash.t) (t : Z).

Lemma dedup_loop_app st (l1 l2 : list Frame) :
  dedup_loop phash t st (l1 ++ l2) =
  dedup_loop phash t (dedup_loop phash t st l1) l2.
Proof. unfold dedup_loop. apply foldl_app. Qed.

(** The loop only ever appends: the final lists are the initial ones
    followed by the frames accepted on the way, which come from the input
    in input order. *)
Lemma dedup_loop_grows (l : list Frame) st :
  ∃ ext,
    dedup_loop phash t st l =
      DedupState (hashes st ++ (phash <$> ext)) (unique_frames st ++ ext)
    ∧ ext `sublist_of` l.
Proof.
  revert st. induction l as [|a l IH]; intros st.
  - exists []. simpl. rewrite !app_nil_r. by destruct st.
  - change (dedup_loop phash t st (a :: l))
      with (dedup_loop phash t (dedup_step phash t st a) l).
    destruct (IH (dedup_step phash t st a)) as (ext & Heq & Hsub).
    rewrite Heq. unfold dedup_step.
    destruct (sufficiently_different t (hashes st) (phash a)) eqn:Hacc.
    + exists (a :: ext). simpl.
      rewrite <- !app_assoc. simpl. split; [done|]. by constructor.
    + exists ext. split; [done|]. by constructor.
Qed.

Lemma get_unique_slides_sublist (frames : list Frame) :
  get_unique_slides phash frames t `sublist_of` frames.
Proof.
  unfold get_unique_slides.
  destruct (dedup_loop_grows frames (DedupState [] [])) as (ext & -> & Hs).
  done.
Qed.

End dedup_loop_facts.

(** Running the loop on decorated frames and forgetting the decoration is
    running it on the frames. *)
Section decoration.
Context {A B : Type} (g : A → B) (phash : B → ImageHash.t) (t : Z).

Lemma dedup_step_forget st a :
  dedup_step phash t (forget g st) (g a) =
  forget g (dedup_step (phash ∘ g) t st a).
Proof.
  unfold dedup_step, forget. simpl.
  destruct (sufficiently_different t (hashes st) (phash (g a))); simpl.
  - by rewrite fmap_app.
  - done.
Qed.

Lemma dedup_loop_forget l st :
  dedup_loop phash t (forget g st) (g <$> l) =
  forget g (dedup_loop (phash ∘ g) t st l).
Proof.
  revert st. induction l as [|a l IH]; intros st; [done|].
  change (dedup_loop phash t (dedup_step phash t (forget g st) (g a)) (g <$> l)
          = forget g (dedup_loop (phash ∘ g) t (dedup_step (phash ∘ g) t st a) l)).
  by rewrite dedup_step_forget, IH.
Qed.

Lemma get_unique_slides_fmap l :
  get_unique_slides phash (g <$> l) t = g <$> get_unique_slides (phash ∘ g) l t.
Proof.
  unfold get_unique_slides.
  change (DedupState (Frame:=B) [] []) with (forget g (DedupState [] [])).
  by rewrite dedup_loop_forget.
Qed.

End decoration.

Section positions.
Context {Frame : Type} (phash : Frame → ImageHash.t) (t : Z).

Lemma elem_of_enumerate (l : list Frame) j g :
  (j, g) ∈ enumerate l ↔ l !! j = Some g.
Proof.
  unfold enumerate. rewrite elem_of_lookup_imap. split.
  - intros (i & y & [= -> ->] & H). done.
  - intros H. by exists j, g.
Qed.

Lemma enumerate_fst (l : list Frame) : (enumerate l).*1 = seq 0 (length l).
Proof.
  unfold enumerate. rewrite fmap_imap.
  rewrite (imap_ext _ (λ n _, n)) by done.
  by rewrite imap_seq_0, list_fmap_id.
Qed.

Lemma enumerate_snd (l : list Frame) : (enumerate l).*2 = l.
Proof.
  unfold enumerate. rewrite fmap_imap.
  rewrite (imap_ext _ (const id)) by done.
  by rewrite imap_const, list_fmap_id.
Qed.

(** The output is the decorated output with the positions dropped. *)
Lemma get_unique_slides_enumerate (frames : list Frame) :
  get_unique_slides phash frames t =
  (get_unique_slides (phash ∘ snd) (enumerate frames) t).*2.
Proof.
  rewrite <- get_unique_slides_fmap. by rewrite enumerate_snd.
Qed.

(** The retained frames are the input frames at the retained positions. *)
Lemma kept_indices_lookup (frames : list Frame) :
  Forall2 (λ i f, frames !! i = Some f)
          (kept_indices phash frames t) (get_unique_slides phash frames t).
Proof.
  rewrite get_unique_slides_enumerate. unfold kept_indices.
  apply Forall2_fmap, Forall_Forall2_diag, Forall_forall.
  intros [j g] Hin. simpl. apply elem_of_enumerate.
  eapply elem_of_sublist; [exact Hin|]. apply get_unique_slides_sublist.
Qed.

Lemma kept_indices_sublist (frames : list Frame) :
  kept_indices phash frames t `sublist_of` seq 0 (length frames).
Proof.
  unfold kept_indices. rewrite <- enumerate_fst.
  apply fmap_sublist, get_unique_slides_sublist.
Qed.

(** Where position [i] ends up: the positions retained before [i], then
    [i] itself exactly when the test of the loop passes on the hashes
    retained so far, then positions after [i]. *)
Lemma kept_indices_split (frames : list Frame) i f :
  frames !! i = Some f →
  ∃ (before : list (nat * Frame)) (after : list nat),
    kept_indices phash frames t =
      before.*1
      ++ (if sufficiently_different t (phash ∘ snd <$> before) (phash f)
          then [i] else [])
      ++ after
    ∧ (∀ j g, (j, g) ∈ before → (j < i)%nat ∧ frames !! j = Some g)
    ∧ (∀ j, j ∈ after → (i < j)%nat).
Proof.
  intros Hi.
  assert (∃ pre post, frames = pre ++ f :: post ∧ length pre = i)
    as (pre & post & -> & Hlen).
  { exists (take i frames), (drop (S i) frames). split.
    - by rewrite take_drop_middle.
    - apply lookup_lt_Some in Hi. rewrite length_take. lia. }
  clear Hi. unfold kept_indices, get_unique_slides, enumerate.
  rewrite imap_app, imap_cons, Hlen, Nat.add_0_r.
  rewrite dedup_loop_app.
  destruct (dedup_loop_grows (phash ∘ snd) t (imap pair pre) (DedupState [] []))
    as (e1 & -> & Hs1). simpl.
  change (dedup_loop (phash ∘ snd) t ?st ((i, f) :: ?l))
    with (dedup_loop (phash ∘ snd) t (dedup_step (phash ∘ snd) t st (i, f)) l).
  match goal with |- context [dedup_loop _ _ ?st ?l] =>
    destruct (dedup_loop_grows (phash ∘ snd) t l st) as (e3 & -> & Hs3) end.
  exists e1, (e3.*1). split; [|split].
  - unfold dedup_step. simpl.
    destruct (sufficiently_different t (phash ∘ snd <$> e1) (phash f));
      simpl; rewrite !fmap_app; simpl; by rewrite <- ?app_assoc.
  - intros j g Hin.
    assert ((j, g) ∈ enumerate pre) as Hpre
      by (eapply elem_of_sublist; [exact Hin | exact Hs1]).
    apply elem_of_enumerate in Hpre.
    pose proof (lookup_lt_Some _ _ _ Hpre). split; [lia|].
    by apply lookup_app_l_Some.
  - intros j Hin. apply list_elem_of_fmap in Hin as ([j' g] & -> & Hin).
    assert ((j', g) ∈ imap ((λ n, pair (i + n)%nat) ∘ S) post) as Hpost
      by (eapply elem_of_sublist; [exact Hin | exact Hs3]).
    apply elem_of_lookup_imap in Hpost as (n & y & [= -> ->] & _).
    simpl. lia.
Qed.

End positions.

Section order_facts.

Lemma StronglySorted_lt_seq (a n : nat) : StronglySorted lt (seq a n).
Proof.
  revert a. induction n as [|n IH]; intros a; simpl; constructor.
  - apply IH.
  - apply Forall_forall. intros x Hx. apply elem_of_seq in Hx. lia.
Qed.

Lemma StronglySorted_sublist {A} (R : relation A) (l k : list A) :
  l `sublist_of` k → StronglySorted R k → StronglySorted R l.
Proof.
  induction 1 as [|x l k Hs IH|x l k Hs IH]; intros Hk.
  - constructor.
  - apply StronglySorted_cons in Hk as [Hx Hk]. constructor; [by apply IH|].
    apply Forall_forall. intros y Hy. rewrite Forall_forall in Hx.
    apply Hx. by eapply elem_of_sublist.
  - apply StronglySorted_cons in Hk as [_ Hk]. by apply IH.
Qed.

End order_facts.

Section dedup_invariants.
Context {Frame : Type} (phash : Frame → ImageHash.t) (t : Z).

Lemma dedup_inv_init : dedup_inv phash t (DedupState [] []).
Proof. split; [done|]. intros p q a b _ Hp. simpl in Hp. by rewrite lookup_nil in Hp. Qed.

Lemma dedup_inv_step st frame :
  dedup_inv phash t st → dedup_inv phash t (dedup_step phash t st frame).
Proof.
  intros [Hh Hfar]. unfold dedup_step.
  destruct (sufficiently_different t (hashes st) (phash frame)) eqn:Hacc;
    [|by split].
  split; simpl.
  - by rewrite fmap_app, Hh.
  - intros p q a b Hpq Hp Hq.
    apply lookup_snoc_Some in Hq as [[Hlt Hq]|[Hlen ->]].
    + rewrite lookup_app_l in Hp by lia. by apply (Hfar p q).
    + rewrite lookup_app_l in Hp by lia.
      rewrite sufficiently_different_spec in Hacc. apply Hacc.
      rewrite Hh. apply list_elem_of_fmap_2. by eapply list_elem_of_lookup_2.
Qed.

Lemma dedup_inv_loop frames st :
  dedup_inv phash t st → dedup_inv phash t (dedup_loop phash t st frames).
Proof.
  revert st. induction frames as [|f frames IH]; intros st Hst; [done|].
  apply (IH (dedup_step phash t st f)). by apply dedup_inv_step.
Qed.

(** With a negative threshold the test of the loop cannot fail. *)
Lemma sufficiently_different_negative hs v :
  t < 0 → sufficiently_different t hs v = true.
Proof. intros Ht. apply sufficiently_different_spec. intros h _. lia. Qed.

Lemma dedup_loop_negative frames st :
  t < 0 →
  dedup_loop phash t st frames =
  DedupState (hashes st ++ (phash <$> frames)) (unique_frames st ++ frames).
Proof.
  intros Ht. revert st. induction frames as [|f frames IH]; intros st.
  - simpl. rewrite !app_nil_r. by destruct st.
  - change (dedup_loop phash t st (f :: frames))
      with (dedup_loop phash t (dedup_step phash t st f) frames).
    rewrite IH. unfold dedup_step.
    rewrite sufficiently_different_negative by done. simpl.
    by rewrite <- !app_assoc.
Qed.

(** The test of the loop gets harder to pass as the threshold grows. *)
Lemma sufficiently_different_antitone t' hs v :
  t ≤ t' →
  sufficiently_different t' hs v = true → sufficiently_different t hs v = true.
Proof.
  rewrite !sufficiently_different_spec. intros Hle H h Hh.
  specialize (H h Hh). lia.
Qed.

End dedup_invariants.

Section dedup_step_facts.
Context {Frame : Type} (phash : Frame → ImageHash.t) (t : Z).

Lemma sufficiently_different_cons h hs v :
  sufficiently_different t (h :: hs) v =
  (t <? Z.of_nat (ImageHash.hamming v h)) && sufficiently_different t hs v.
Proof. unfold sufficiently_different. simpl. by rewrite abs_sub_hamming. Qed.

Lemma dedup_loop_cons st f frames :
  dedup_loop phash t st (f :: frames) =
  dedup_loop phash t (dedup_step phash t st f) frames.
Proof. done. Qed.

Lemma dedup_step_accept st f :
  sufficiently_different t (hashes st) (phash f) = true →
  dedup_step phash t st f =
  DedupState (hashes st ++ [phash f]) (unique_frames st ++ [f]).
Proof. unfold dedup_step. by intros ->. Qed.

Lemma dedup_step_reject st f :
  sufficiently_different t (hashes st) (phash f) = false →
  dedup_step phash t st f = st.
Proof. unfold dedup_step. by intros ->. Qed.

End dedup_step_facts.

(** * The claims on [get_unique_slides] *)

(** C1.  For a non-negative threshold, the frame at position [i] is retained
    exactly when its hash is at Hamming distance greater than the threshold
    from the hash of every frame retained before it; the retained frames are
    the frames at the retained positions; the first frame of a non-empty
    input is always retained. *)
Theorem get_unique_slides_accepts_iff {Frame} (phash : Frame → ImageHash.t)
    (frames : list Frame) (threshold : Z) :
  0 ≤ threshold →
  Forall2 (λ i f, frames !! i = Some f)
          (kept_indices phash frames threshold)
          (get_unique_slides phash frames threshold)
  ∧ (∀ i f, frames !! i = Some f →
       (i ∈ kept_indices phash frames threshold ↔
        ∀ j g, j ∈ kept_indices phash frames threshold → (j < i)%nat →
               frames !! j = Some g →
               threshold < Z.of_nat (ImageHash.hamming (phash f) (phash g))))
  ∧ (∀ f rest, frames = f :: rest →
       head (kept_indices phash frames threshold) = Some 0%nat
       ∧ head (get_unique_slides phash frames threshold) = Some f).
Proof.
  intros _. split; [apply kept_indices_lookup|]. split.
  - intros i f Hi.
    destruct (kept_indices_split phash threshold frames i f Hi)
      as (before & after & Hk & Hb & Ha).
    rewrite Hk. clear Hk.
    set (hs := phash ∘ snd <$> before) in *.
    split.
    + intros Hin j g Hj Hji Hg.
      assert (sufficiently_different threshold hs (phash f) = true) as Hacc.
      { destruct (sufficiently_different threshold hs (phash f)); [done|].
        exfalso. rewrite !elem_of_app in Hin. destruct Hin as [Hin|[Hin|Hin]].
        - apply list_elem_of_fmap in Hin as ([j' g'] & -> & Hin).
          apply Hb in Hin. simpl in Hin. lia.
        - by apply elem_of_nil in Hin.
        - apply Ha in Hin. lia. }
      rewrite sufficiently_different_spec in Hacc. apply Hacc.
      rewrite !elem_of_app in Hj. destruct Hj as [Hj|[Hj|Hj]].
      * apply list_elem_of_fmap in Hj as ([j' g'] & -> & Hj). simpl in *.
        destruct (Hb _ _ Hj) as [_ Hg']. assert (g' = g) as -> by congruence.
        subst hs. by apply (list_elem_of_fmap_2' _ _ (j', g)).
      * destruct (sufficiently_different threshold hs (phash f));
          [apply list_elem_of_singleton in Hj; lia | by apply elem_of_nil in Hj].
      * apply Ha in Hj. lia.
    + intros H.
      assert (sufficiently_different threshold hs (phash f) = true) as Hacc.
      { apply sufficiently_different_spec. intros h Hh. subst hs.
        apply list_elem_of_fmap in Hh as ([j g] & -> & Hin). simpl.
        destruct (Hb _ _ Hin) as [Hlt Hg]. apply (H j g); [|done|done].
        apply elem_of_app. left. by apply (list_elem_of_fmap_2' _ _ (j, g)). }
      rewrite Hacc. rewrite !elem_of_app, list_elem_of_singleton. auto.
  - intros f rest ->.
    destruct (kept_indices_split phash threshold (f :: rest) 0%nat f eq_refl)
      as (before & after & Hk & Hb & Ha).
    destruct before as [|[j g] before].
    + simpl in Hk. split; [by rewrite Hk|].
      pose proof (kept_indices_lookup phash threshold (f :: rest)) as Hl.
      rewrite Hk in Hl. inversion Hl as [|? y ? l' Hy _]; subst.
      simpl in Hy. by injection Hy as ->.
    + exfalso. destruct (Hb j g); [by left | lia].
Qed.

(** C3.  The retained frames form a subsequence of the input: they come from
    strictly increasing, hence distinct, positions of the input, and nothing
    is retained that is not in the input at its position. *)
Theorem get_unique_slides_subsequence {Frame} (phash : Frame → ImageHash.t)
    (frames : list Frame) (threshold : Z) :
  get_unique_slides phash frames threshold `sublist_of` frames
  ∧ StronglySorted lt (kept_indices phash frames threshold)
  ∧ NoDup (kept_indices phash frames threshold)
  ∧ Forall (λ i, (i < length frames)%nat) (kept_indices phash frames threshold)
  ∧ Forall2 (λ i f, frames !! i = Some f)
            (kept_indices phash frames threshold)
            (get_unique_slides phash frames threshold).
Proof.
  pose proof (kept_indices_sublist phash threshold frames) as Hsub.
  split; [apply get_unique_slides_sublist|].
  split; [eapply StronglySorted_sublist; [exact Hsub | apply StronglySorted_lt_seq]|].
  split; [eapply sublist_NoDup; [apply NoDup_seq | exact Hsub]|].
  split; [|apply kept_indices_lookup].
  apply Forall_forall. intros i Hi.
  eapply elem_of_sublist in Hi; [|exact Hsub]. apply elem_of_seq in Hi. lia.
Qed.

(** C9.  For a non-negative threshold, any two slides at different positions
    of the output have hashes at Hamming distance greater than the
    threshold. *)
Theorem get_unique_slides_pairwise_far {Frame} (phash : Frame → ImageHash.t)
    (frames : list Frame) (threshold : Z) :
  0 ≤ threshold →
  ∀ p q a b, p ≠ q →
    get_unique_slides phash frames threshold !! p = Some a →
    get_unique_slides phash frames threshold !! q = Some b →
    threshold < Z.of_nat (ImageHash.hamming (phash a) (phash b)).
Proof.
  intros _ p q a b Hpq Hp Hq.
  destruct (dedup_inv_loop phash threshold frames (DedupState [] []))
    as [_ Hfar]; [apply dedup_inv_init|].
  destruct (Nat.lt_total p q) as [Hlt|[->|Hlt]]; [|done|].
  - rewrite hamming_sym. by apply (Hfar p q).
  - by apply (Hfar q p).
Qed.

(** C10.  With a negative threshold nothing is checked and every frame is
    retained, duplicates included: the output is the input. *)
Theorem get_unique_slides_negative_threshold {Frame}
    (phash : Frame → ImageHash.t) (frames : list Frame) (threshold : Z) :
  threshold < 0 →
  get_unique_slides phash frames threshold = frames
  ∧ kept_indices phash frames threshold = seq 0 (length frames).
Proof.
  intros Ht. unfold kept_indices, get_unique_slides.
  rewrite !dedup_loop_negative by done. simpl.
  split; [done|]. apply enumerate_fst.
Qed.

(** Two runs of frames with equal hashes, the two hashes further apart than
    the threshold 1: the first frame of each run is retained. *)
Lemma two_runs_of_equal_hashes {F} (ph : F → ImageHash.t) (x0 x1 x2 x3 x4 : F) :
  ph x1 = ph x0 → ph x2 = ph x0 → ph x4 = ph x3 →
  1 < Z.of_nat (ImageHash.hamming (ph x0) (ph x3)) →
  get_unique_slides ph [x0; x1; x2; x3; x4] 1 = [x0; x3].
Proof.
  intros H1 H2 H4 Hfar.
  assert (Hfar' : (1 <? Z.of_nat (ImageHash.hamming (ph x3) (ph x0))) = true)
    by (rewrite hamming_sym; by apply Z.ltb_lt).
  unfold get_unique_slides. rewrite !dedup_loop_cons.
  rewrite (dedup_step_accept ph 1 _ x0) by done. simpl hashes. simpl app.
  rewrite (dedup_step_reject ph 1 _ x1); cycle 1.
  { simpl hashes. by rewrite sufficiently_different_cons, H1, hamming_self. }
  rewrite (dedup_step_reject ph 1 _ x2); cycle 1.
  { simpl hashes. by rewrite sufficiently_different_cons, H2, hamming_self. }
  rewrite (dedup_step_accept ph 1 _ x3); cycle 1.
  { simpl hashes. by rewrite sufficiently_different_cons, Hfar'. }
  simpl hashes. simpl app.
  rewrite (dedup_step_reject ph 1 _ x4); cycle 1.
  { simpl hashes.
    by rewrite !sufficiently_different_cons, H4, hamming_self, andb_false_r. }
  done.
Qed.

(** The same two runs with hashes within the threshold 1 of each other:
    the second run is dropped as well. *)
Lemma two_runs_of_close_hashes {F} (ph : F → ImageHash.t) (x0 x1 x2 x3 x4 : F) :
  ph x1 = ph x0 → ph x2 = ph x0 → ph x4 = ph x3 →
  Z.of_nat (ImageHash.hamming (ph x0) (ph x3)) ≤ 1 →
  get_unique_slides ph [x0; x1; x2; x3; x4] 1 = [x0].
Proof.
  intros H1 H2 H4 Hclose.
  assert (Hclose' : (1 <? Z.of_nat (ImageHash.hamming (ph x3) (ph x0))) = false)
    by (rewrite hamming_sym; by apply Z.ltb_ge).
  unfold get_unique_slides. rewrite !dedup_loop_cons.
  rewrite (dedup_step_accept ph 1 _ x0) by done. simpl hashes. simpl app.
  rewrite (dedup_step_reject ph 1 _ x1); cycle 1.
  { simpl hashes. by rewrite sufficiently_different_cons, H1, hamming_self. }
  rewrite (dedup_step_reject ph 1 _ x2); cycle 1.
  { simpl hashes. by rewrite sufficiently_different_cons, H2, hamming_self. }
  rewrite (dedup_step_reject ph 1 _ x3); cycle 1.
  { simpl hashes. by rewrite sufficiently_different_cons, Hclose'. }
  rewrite (dedup_step_reject ph 1 _ x4); cycle 1.
  { simpl hashes. by rewrite sufficiently_different_cons, H4, Hclose'. }
  done.
Qed.

(** C8, as stated.  The loop compares perceptual hashes, not pixels, and
    frames that differ in their pixels need not differ in their hash, which
    sums a frame up in 64 cells and is meant to ignore small changes.  The
    hash being a parameter, the instance below names the frames by a number
    and gives them all one hash: the run yields one slide, not two. *)
Lemma five_frames_one_slide :
  ¬ (∀ (Frame : Type) (phash : Frame → ImageHash.t) (a b : Frame),
       a ≠ b →
       get_unique_slides phash [a; a; a; b; b] 1 = [a; b]
       ∧ kept_indices phash [a; a; a; b; b] 1 = [0; 3]%nat).
Proof.
  intros H.
  destruct (H N (λ _, 1%N) 100%N 200%N) as [Hout _]; [done|].
  rewrite two_runs_of_close_hashes in Hout; [done..|].
  by vm_compute.
Qed.

(** C8, amended.  Five frames, the first three with one picture and the
    last two with another, the hashes of the two pictures more than 1
    apart, threshold 1: exactly two slides, from positions 0 and 3. *)
Theorem five_frames_two_slides {Frame} (phash : Frame → ImageHash.t)
    (a b : Frame) :
  1 < Z.of_nat (ImageHash.hamming (phash a) (phash b)) →
  get_unique_slides phash [a; a; a; b; b] 1 = [a; b]
  ∧ kept_indices phash [a; a; a; b; b] 1 = [0; 3]%nat.
Proof.
  intros Hfar. split.
  - by apply two_runs_of_equal_hashes.
  - unfold kept_indices, enumerate. simpl imap.
    by rewrite two_runs_of_equal_hashes.
Qed.

Lemma five_frames_two_slides_witness :
  get_unique_slides id [0x00FF%N; 0x00FF%N; 0x00FF%N; 0x0FF0%N; 0x0FF0%N] 1
    = [0x00FF%N; 0x0FF0%N]
  ∧ kept_indices id [0x00FF%N; 0x00FF%N; 0x00FF%N; 0x0FF0%N; 0x0FF0%N] 1
    = [0; 3]%nat.
Proof. apply (five_frames_two_slides id 0x00FF%N 0x0FF0%N). by vm_compute. Defined.

(** C2, as stated.  At threshold 4 the second frame is retained and shadows
    the third and the fourth (2 slides); at threshold 6 the second frame is
    dropped, and the third and the fourth, no longer shadowed, are both
    retained (3 slides). *)
Lemma raising_threshold_can_add_slides :
  let frames := [hash_A; hash_B; hash_C; hash_D] in
  0 ≤ 4 ≤ 6
  ∧ get_unique_slides id frames 4 = [hash_A; hash_B]
  ∧ get_unique_slides id frames 6 = [hash_A; hash_C; hash_D]
  ∧ ¬ (length (get_unique_slides id frames 6)
       ≤ length (get_unique_slides id frames 4))%nat.
Proof.
  split; [lia|]. split; [by vm_compute|]. split; [by vm_compute|].
  vm_compute. lia.
Qed.

(** C2, amended.  While two runs on the same frames, one with threshold
    [t1] and one with a higher threshold [t2], have retained the same slides,
    a next frame that the run with [t2] retains is retained by the run with
    [t1] as well: the test of the loop is antitone in the threshold.  (The
    number of slides of a whole run is not.) *)
Theorem get_unique_slides_next_frame_antitone {Frame}
    (phash : Frame → ImageHash.t) (pre : list Frame) (frame : Frame)
    (t1 t2 : Z) :
  t1 ≤ t2 →
  get_unique_slides phash pre t1 = get_unique_slides phash pre t2 →
  get_unique_slides phash (pre ++ [frame]) t2
    = get_unique_slides phash pre t2 ++ [frame] →
  get_unique_slides phash (pre ++ [frame]) t1
    = get_unique_slides phash pre t1 ++ [frame].
Proof.
  unfold get_unique_slides. rewrite !dedup_loop_app. simpl.
  intros Hle Hsame Hacc2.
  destruct (dedup_inv_loop phash t1 pre (DedupState [] []) (dedup_inv_init _ _))
    as [Hh1 _].
  destruct (dedup_inv_loop phash t2 pre (DedupState [] []) (dedup_inv_init _ _))
    as [Hh2 _].
  set (st1 := dedup_loop phash t1 (DedupState [] []) pre) in *.
  set (st2 := dedup_loop phash t2 (DedupState [] []) pre) in *.
  assert (hashes st1 = hashes st2) as Hhashes by (by rewrite Hh1, Hh2, Hsame).
  destruct (sufficiently_different t2 (hashes st2) (phash frame)) eqn:H2.
  - rewrite dedup_step_accept; [done|]. rewrite Hhashes.
    by apply (sufficiently_different_antitone t1 t2).
  - rewrite dedup_step_reject in Hacc2 by done.
    apply (f_equal length) in Hacc2. rewrite length_app in Hacc2.
    simpl in Hacc2. lia.
Qed.

Lemma get_unique_slides_next_frame_antitone_witness :
  get_unique_slides id ([hash_A] ++ [hash_C]) 4
    = get_unique_slides id [hash_A] 4 ++ [hash_C].
Proof.
  apply (get_unique_slides_next_frame_antitone id [hash_A] hash_C 4 6).
  - lia.
  - reflexivity.
  - by vm_compute.
Defined.

(** The theorems above at the sample hashes. *)
Lemma get_unique_slides_accepts_iff_witness :
  let frames := [hash_A; hash_B; hash_C; hash_D] in
  Forall2 (λ i f, frames !! i = Some f)
          (kept_indices id frames 4) (get_unique_slides id frames 4)
  ∧ (∀ i f, frames !! i = Some f →
       (i ∈ kept_indices id frames 4 ↔
        ∀ j g, j ∈ kept_indices id frames 4 → (j < i)%nat →
               frames !! j = Some g →
               4 < Z.of_nat (ImageHash.hamming (id f) (id g))))
  ∧ (∀ f rest, frames = f :: rest →
       head (kept_indices id frames 4) = Some 0%nat
       ∧ head (get_unique_slides id frames 4) = Some f).
Proof.
  apply (get_unique_slides_accepts_iff id [hash_A; hash_B; hash_C; hash_D] 4).
  lia.
Defined.

Lemma get_unique_slides_pairwise_far_witness :
  get_unique_slides id [hash_A; hash_B; hash_C; hash_D] 6 = [hash_A; hash_C; hash_D]
  ∧ 6 < Z.of_nat (ImageHash.hamming (id hash_D) (id hash_A)).
Proof.
  split; [by vm_compute|].
  apply (get_unique_slides_pairwise_far id [hash_A; hash_B; hash_C; hash_D] 6
           ltac:(lia) 2%nat 0%nat hash_D hash_A).
  - lia.
  - by vm_compute.
  - by vm_compute.
Defined.

Lemma get_unique_slides_negative_threshold_witness :
  get_unique_slides id [hash_A; hash_A; hash_B; hash_A] (-1)
    = [hash_A; hash_A; hash_B; hash_A]
  ∧ kept_indices id [hash_A; hash_A; hash_B; hash_A] (-1) = seq 0 4.
Proof.
  apply (get_unique_slides_negative_threshold id
           [hash_A; hash_A; hash_B; hash_A] (-1)).
  lia.
Defined.

(** * The claims on [extract_frames] *)

Section sample_loop_facts.
Context {Frame : Type}.

Lemma py_mod_nonzero a b : b ≠ 0 → py_mod a b = Ok (a `mod` b).
Proof.
  intros Hb. unfold py_mod. by destruct (Z.eqb_spec b 0).
Qed.

(** One round of the loop is one [cap.read()]. *)
Lemma sample_loop_read (cap : VideoCapture Frame) interval frame_id frames :
  sample_loop interval (undecoded cap) frame_id frames =
  match read cap with
  | (None, _) => (Ok frames, [])
  | (Some frame, cap') =>
      match py_mod frame_id interval with
      | Raise e => (Raise e, undecoded cap')
      | Ok r =>
          sample_loop interval (undecoded cap') (frame_id + 1)
            (if r =? 0 then frames ++ [frame] else frames)
      end
  end.
Proof. unfold read. by destruct (undecoded cap). Qed.

(** With a positive interval [m], [r] being the distance from [frame_id]
    to the next multiple of [m], the loop appends the pending frames at
    positions [r], [r + m], [r + 2m], ... and consumes all of them. *)
Lemma sample_loop_positive (m : Z) (pending : list Frame) :
  0 < m →
  ∀ frame_id r frames,
    0 ≤ r < m → (frame_id + r) `mod` m = 0 →
    ∃ out,
      sample_loop m pending frame_id frames = (Ok (frames ++ out), [])
      ∧ ∀ k, out !! k = pending !! (k * Z.to_nat m + Z.to_nat r)%nat.
Proof.
  intros Hm. induction pending as [|f rest IH]; intros frame_id r frames Hr Hmod.
  - exists []. simpl. rewrite app_nil_r. split; [done|].
    intros k. by rewrite !lookup_nil.
  - simpl. rewrite py_mod_nonzero by lia.
    destruct (decide (r = 0)) as [->|Hr0].
    + rewrite Z.add_0_r in Hmod. rewrite Hmod. simpl.
      destruct (IH (frame_id + 1) (m - 1) (frames ++ [f]))
        as (out & Heq & Hout); [lia| |].
      { replace (frame_id + 1 + (m - 1)) with (frame_id + 1 * m) by lia.
        by rewrite Z.mod_add by lia. }
      exists (f :: out). rewrite Heq, <- app_assoc. split; [done|].
      intros [|k]; [done|].
      replace (S k * Z.to_nat m + Z.to_nat 0)%nat
        with (S (k * Z.to_nat m + Z.to_nat (m - 1)))%nat by lia.
      exact (Hout k).
    + assert (frame_id `mod` m ≠ 0) as Hne.
      { intros Hz. apply Z.mod_divide in Hz as [q1 Hq1]; [|lia].
        apply Z.mod_divide in Hmod as [q2 Hq2]; [|lia].
        assert (r = (q2 - q1) * m) as Hrm by lia.
        destruct (Z.le_gt_cases (q2 - q1) 0); nia. }
      apply Z.eqb_neq in Hne. rewrite Hne.
      destruct (IH (frame_id + 1) (r - 1) frames)
        as (out & Heq & Hout); [lia| |].
      { by replace (frame_id + 1 + (r - 1)) with (frame_id + r) by lia. }
      exists out. split; [done|]. intros k.
      replace (k * Z.to_nat m + Z.to_nat r)%nat
        with (S (k * Z.to_nat m + Z.to_nat (r - 1)))%nat by lia.
      exact (Hout k).
Qed.

(** A negative interval samples like its absolute value: [a % -m] is zero
    exactly when [a % m] is. *)
Lemma mod_opp_eqb_0 a m : m ≠ 0 → (a `mod` (- m) =? 0) = (a `mod` m =? 0).
Proof.
  intros Hm.
  destruct (Z.eqb_spec (a `mod` m) 0) as [Hz|Hnz].
  - apply Z.eqb_eq. by apply Z.mod_opp_r_z.
  - apply Z.eqb_neq. intros Hz. apply Hnz.
    apply Z.mod_divide in Hz; [|lia]. apply Z.mod_divide; [lia|].
    by apply Z.divide_opp_l.
Qed.

Lemma sample_loop_opp (m : Z) (pending : list Frame) frame_id frames :
  m ≠ 0 →
  sample_loop (- m) pending frame_id frames =
  sample_loop m pending frame_id frames.
Proof.
  intros Hm. revert frame_id frames.
  induction pending as [|f rest IH]; intros frame_id frames; [done|].
  simpl. rewrite !py_mod_nonzero by lia. by rewrite mod_opp_eqb_0, IH.
Qed.

End sample_loop_facts.

(** With a positive interval the call returns, releases the capture and has
    read the whole source. *)
Lemma extract_frames_positive_total {Frame} (fs : list Frame) (m : Z) :
  0 < m →
  ∃ frames, extract_frames (open_video fs) m = (Ok frames, MkCapture false []).
Proof.
  intros Hpos.
  destruct (sample_loop_positive m fs Hpos 0 0 []) as (out & Heq & _);
    [lia|done|].
  exists out. unfold extract_frames, open_video. simpl. by rewrite Heq.
Qed.

(** C7.  For a positive interval the [k]-th sampled frame is the frame the
    source decodes at position [k * interval], all frames of the source are
    read and the capture is released; a source of 100 frames sampled with
    interval 30 yields the four frames at positions 0, 30, 60 and 90. *)
Theorem extract_frames_every_nth {Frame} (fs : list Frame)
    (frame_interval : Z) :
  0 < frame_interval →
  ∃ frames,
    extract_frames (open_video fs) frame_interval
      = (Ok frames, MkCapture false [])
    ∧ (∀ k, frames !! k = fs !! (k * Z.to_nat frame_interval)%nat)
    ∧ (frame_interval = 30 → length fs = 100%nat →
       ∃ f0 f30 f60 f90,
         fs !! 0%nat = Some f0 ∧ fs !! 30%nat = Some f30
         ∧ fs !! 60%nat = Some f60 ∧ fs !! 90%nat = Some f90
         ∧ frames = [f0; f30; f60; f90]).
Proof.
  intros Hpos.
  destruct (sample_loop_positive frame_interval fs Hpos 0 0 [])
    as (out & Heq & Hout); [lia|done|].
  exists out. unfold extract_frames, open_video. simpl. rewrite Heq. simpl.
  split; [done|].
  assert (∀ k, out !! k = fs !! (k * Z.to_nat frame_interval)%nat) as Hk.
  { intros k. rewrite Hout. f_equal. lia. }
  split; [done|].
  intros -> Hlen.
  destruct (lookup_lt_is_Some_2 fs 0) as [f0 H0]; [lia|].
  destruct (lookup_lt_is_Some_2 fs 30) as [f30 H30]; [lia|].
  destruct (lookup_lt_is_Some_2 fs 60) as [f60 H60]; [lia|].
  destruct (lookup_lt_is_Some_2 fs 90) as [f90 H90]; [lia|].
  exists f0, f30, f60, f90. repeat (split; [done|]).
  pose proof (Hk 0%nat) as K0. pose proof (Hk 1%nat) as K1.
  pose proof (Hk 2%nat) as K2. pose proof (Hk 3%nat) as K3.
  pose proof (Hk 4%nat) as K4.
  change (0 * Z.to_nat 30)%nat with 0%nat in K0.
  change (1 * Z.to_nat 30)%nat with 30%nat in K1.
  change (2 * Z.to_nat 30)%nat with 60%nat in K2.
  change (3 * Z.to_nat 30)%nat with 90%nat in K3.
  change (4 * Z.to_nat 30)%nat with 120%nat in K4.
  rewrite H0 in K0. rewrite H30 in K1. rewrite H60 in K2. rewrite H90 in K3.
  rewrite (lookup_ge_None_2 fs 120) in K4 by lia.
  destruct out as [|a [|b [|c [|d [|e out]]]]]; simplify_eq/=. done.
Qed.

Lemma extract_frames_every_nth_witness :
  ∃ frames,
    extract_frames (open_video (seq 0 100)) 30 = (Ok frames, MkCapture false [])
    ∧ (∀ k, frames !! k = seq 0 100 !! (k * Z.to_nat 30)%nat)
    ∧ (30 = 30 → length (seq 0 100) = 100%nat →
       ∃ f0 f30 f60 f90,
         seq 0 100 !! 0%nat = Some f0 ∧ seq 0 100 !! 30%nat = Some f30
         ∧ seq 0 100 !! 60%nat = Some f60 ∧ seq 0 100 !! 90%nat = Some f90
         ∧ frames = [f0; f30; f60; f90]).
Proof. apply (extract_frames_every_nth (seq 0 100) 30). lia. Defined.

(** C6, as stated.  No interval is rejected.  With interval 0 on a source of
    three frames the first frame is decoded before the [%] raises
    [ZeroDivisionError], and the capture is left open; with interval -2 the
    call does not fail at all and decodes the whole source. *)
Lemma extract_frames_checks_no_interval :
  let cap := open_video [10; 11; 12]%nat in
  extract_frames cap 0 = (Raise ZeroDivisionError, MkCapture true [11; 12]%nat)
  ∧ frames_decoded cap (extract_frames cap 0).2 = 1%nat
  ∧ extract_frames cap (-2) = (Ok [10; 12]%nat, MkCapture false [])
  ∧ frames_decoded cap (extract_frames cap (-2)).2 = 3%nat
  ∧ ¬ (∀ interval, interval ≤ 0 →
         ∃ e, (extract_frames cap interval).1 = Raise e
              ∧ frames_decoded cap (extract_frames cap interval).2 = 0%nat).
Proof.
  repeat (split; [by vm_compute|]).
  intros H. destruct (H 0) as (e & _ & Hdec); [lia|].
  vm_compute in Hdec. discriminate Hdec.
Qed.

(** C6, amended.  [extract_frames] does not validate its interval.  With
    interval 0 an open source with a frame has that one frame decoded, then
    the loop raises [ZeroDivisionError] and the capture stays open; an empty
    source gives the empty list.  A negative interval raises nothing and
    samples exactly as its absolute value does. *)
Theorem extract_frames_nonpositive_interval {Frame} (fs : list Frame)
    (frame_interval : Z) :
  frame_interval ≤ 0 →
  (frame_interval = 0 →
     match fs with
     | [] => extract_frames (open_video fs) frame_interval
             = (Ok [], MkCapture false [])
     | f :: rest => extract_frames (open_video fs) frame_interval
                    = (Raise ZeroDivisionError, MkCapture true rest)
                    ∧ frames_decoded (open_video fs)
                        (extract_frames (open_video fs) frame_interval).2 = 1%nat
     end)
  ∧ (frame_interval < 0 →
     extract_frames (open_video fs) frame_interval
       = extract_frames (open_video fs) (- frame_interval)
     ∧ ∃ frames, extract_frames (open_video fs) frame_interval
                 = (Ok frames, MkCapture false [])).
Proof.
  intros _. split.
  - intros ->. destruct fs as [|f rest]; [done|].
    split; [done|]. unfold frames_decoded. simpl. lia.
  - intros Hneg.
    assert (extract_frames (open_video fs) frame_interval
            = extract_frames (open_video fs) (- frame_interval)) as Heq.
    { unfold extract_frames, open_video. simpl.
      rewrite <- (sample_loop_opp (- frame_interval)) by lia.
      by rewrite Z.opp_involutive. }
    split; [done|]. rewrite Heq.
    destruct (extract_frames_positive_total fs (- frame_interval)) as (out & ->);
      [lia|]. by exists out.
Qed.

Lemma extract_frames_nonpositive_interval_witness :
  (-2 = 0 →
     extract_frames (open_video [10; 11; 12]%nat) (-2)
       = (Raise ZeroDivisionError, MkCapture true [11; 12]%nat)
     ∧ frames_decoded (open_video [10; 11; 12]%nat)
         (extract_frames (open_video [10; 11; 12]%nat) (-2)).2 = 1%nat)
  ∧ (-2 < 0 →
     extract_frames (open_video [10; 11; 12]%nat) (-2)
       = extract_frames (open_video [10; 11; 12]%nat) (- -2)
     ∧ ∃ frames, extract_frames (open_video [10; 11; 12]%nat) (-2)
                 = (Ok frames, MkCapture false [])).
Proof.
  apply (extract_frames_nonpositive_interval [10; 11; 12]%nat (-2)). lia.
Defined.

(** * The claims on [extract_text_from_slides] *)

Section strip_facts.

Lemma lstrip_spec (s : pystr) :
  ∃ l, s = l ++ lstrip s
       ∧ Forall (λ c, isspace c = true) l
       ∧ ∀ c, head (lstrip s) = Some c → isspace c = false.
Proof.
  induction s as [|c s (l & Hs & Hl & Hhd)].
  - exists []. by repeat split.
  - simpl. destruct (isspace c) eqn:Hc.
    + exists (c :: l). split; [by rewrite Hs at 1|]. split; [by constructor|done].
    + exists []. split; [done|]. split; [constructor|].
      intros c' [= <-]. done.
Qed.

Lemma rstrip_spec (s : pystr) :
  ∃ r, s = rstrip s ++ r
       ∧ Forall (λ c, isspace c = true) r
       ∧ ∀ c, last (rstrip s) = Some c → isspace c = false.
Proof.
  destruct (lstrip_spec (reverse s)) as (l & Hs & Hl & Hhd).
  exists (reverse l). unfold rstrip. split; [|split].
  - rewrite <- reverse_app, <- Hs. by rewrite reverse_involutive.
  - by apply Forall_reverse.
  - intros c. rewrite last_reverse. apply Hhd.
Qed.

(** [strip] cuts white space off both ends and nothing else. *)
Lemma strip_spec (s : pystr) :
  ∃ l r, s = l ++ strip s ++ r
         ∧ Forall (λ c, isspace c = true) l
         ∧ Forall (λ c, isspace c = true) r
         ∧ (∀ c, head (strip s) = Some c → isspace c = false)
         ∧ (∀ c, last (strip s) = Some c → isspace c = false).
Proof.
  destruct (lstrip_spec s) as (l & Hs & Hl & Hhd).
  destruct (rstrip_spec (lstrip s)) as (r & Hs' & Hr & Hlast).
  exists l, r. unfold strip. split; [by rewrite <- Hs'|].
  repeat (split; [done|]). split; [|done].
  intros c Hc. apply Hhd. rewrite Hs'.
  apply head_Some in Hc as [s' ->]. done.
Qed.

End strip_facts.

Section ocr_loop_facts.
Context {Frame E : Type} (image_to_string : Frame → result E pystr)
        (mktemp : nat → string).

Lemma ocr_loop_cons_ok slide text rest slide_texts files :
  image_to_string slide = Ok text →
  ocr_loop image_to_string mktemp (slide :: rest) slide_texts files =
  ocr_loop image_to_string mktemp rest
    (slide_texts ++ [(mktemp (length files), strip text)])
    (files ++ [(mktemp (length files), slide)]).
Proof.
  intros H. simpl. unfold mbind, io_bind, call. by rewrite H.
Qed.

Lemma ocr_loop_cons_raise slide e rest slide_texts files :
  image_to_string slide = Raise e →
  ocr_loop image_to_string mktemp (slide :: rest) slide_texts files =
  (Raise e, files).
Proof.
  intros H. simpl. unfold mbind, io_bind, call. by rewrite H.
Qed.

(** All calls of the OCR return: one record per slide, in order, the text
    stripped, the images written to the temporary files named in the
    records. *)
Lemma ocr_loop_ok slides texts :
  Forall2 (λ slide text, image_to_string slide = Ok text) slides texts →
  ∀ slide_texts files,
    ∃ records,
      ocr_loop image_to_string mktemp slides slide_texts files
        = (Ok (slide_texts ++ records), files ++ zip records.*1 slides)
      ∧ records.*2 = strip <$> texts
      ∧ records.*1 = mktemp <$> seq (length files) (length slides).
Proof.
  induction 1 as [|slide text slides texts Hok _ IH]; intros slide_texts files.
  - exists []. simpl. by rewrite !app_nil_r.
  - rewrite (ocr_loop_cons_ok _ _ _ _ _ Hok).
    destruct (IH (slide_texts ++ [(mktemp (length files), strip text)])
                 (files ++ [(mktemp (length files), slide)]))
      as (records & -> & Htexts & Hnames).
    exists ((mktemp (length files), strip text) :: records).
    rewrite <- !app_assoc. csimpl. split; [done|]. split; [by rewrite Htexts|].
    rewrite Hnames, length_app. csimpl.
    by replace (length files + 1)%nat with (S (length files)) by lia.
Qed.

(** The first call of the OCR that raises ends the function with its
    exception; the slides before it have been written to files. *)
Lemma ocr_loop_raise pre texts slide e post :
  Forall2 (λ slide text, image_to_string slide = Ok text) pre texts →
  image_to_string slide = Raise e →
  ∀ slide_texts files,
    ∃ files',
      ocr_loop image_to_string mktemp (pre ++ slide :: post) slide_texts files
        = (Raise e, files')
      ∧ files'.*2 = files.*2 ++ pre.
Proof.
  intros Hpre Hraise.
  induction Hpre as [|s text pre texts Hok _ IH]; intros slide_texts files.
  - simpl app. rewrite (ocr_loop_cons_raise _ _ _ _ _ Hraise).
    exists files. by rewrite app_nil_r.
  - simpl app. rewrite (ocr_loop_cons_ok _ _ _ _ _ Hok).
    destruct (IH (slide_texts ++ [(mktemp (length files), strip text)])
                 (files ++ [(mktemp (length files), s)]))
      as (files' & -> & Hfiles).
    exists files'. split; [done|].
    rewrite Hfiles, fmap_app. csimpl. by rewrite <- app_assoc.
Qed.

End ocr_loop_facts.

(** C4, as stated.  Nothing catches the exception of the OCR: when it raises
    on the second of three slides the function ends with that exception,
    after the image of the first slide alone has been written, and returns
    no records. *)
Lemma one_failure_aborts_extraction :
  extract_text_from_slides example_ocr example_mktemp [0; 1; 2]%nat []
    = (Raise TesseractError, [("tmp0.png"%string, 0%nat)])
  ∧ ¬ (∃ records files',
         extract_text_from_slides example_ocr example_mktemp [0; 1; 2]%nat []
           = (Ok records, files')
         ∧ length records = 3%nat
         ∧ records.*2 !! 1%nat = Some []).
Proof.
  split; [by vm_compute|].
  intros (records & files' & H & _). vm_compute in H. discriminate H.
Qed.

(** C4, amended.  When the OCR raises on a slide after having returned on
    the slides before it, [extract_text_from_slides] ends with that
    exception: no records are returned and no empty text stands in for the
    failure.  On the slides before the failing one alone it returns one
    record per slide. *)
Theorem extract_text_stops_at_first_failure {Frame E}
    (image_to_string : Frame → result E pystr) (mktemp : nat → string)
    (pre : list Frame) (texts : list pystr) (slide : Frame) (e : E)
    (post : list Frame) (files : tmpfiles Frame) :
  Forall2 (λ s text, image_to_string s = Ok text) pre texts →
  image_to_string slide = Raise e →
  (∃ files',
     extract_text_from_slides image_to_string mktemp
       (pre ++ slide :: post) files = (Raise e, files')
     ∧ files'.*2 = files.*2 ++ pre)
  ∧ (∃ records files',
       extract_text_from_slides image_to_string mktemp pre files
         = (Ok records, files')
       ∧ length records = length pre
       ∧ records.*2 = strip <$> texts).
Proof.
  intros Hpre Hraise. split.
  - by apply (ocr_loop_raise image_to_string mktemp pre texts).
  - destruct (ocr_loop_ok image_to_string mktemp pre texts Hpre [] files)
      as (records & Heq & Htexts & Hnames).
    exists records, (files ++ zip records.*1 pre). split; [done|].
    split; [|done].
    rewrite <- (length_fmap fst records), Hnames, length_fmap. apply length_seq.
Qed.

Lemma extract_text_stops_at_first_failure_witness :
  (∃ files',
     extract_text_from_slides example_ocr example_mktemp
       ([0%nat] ++ 1%nat :: [2%nat]) [] = (Raise TesseractError, files')
     ∧ files'.*2 = [0%nat])
  ∧ (∃ records files',
       extract_text_from_slides example_ocr example_mktemp [0%nat] []
         = (Ok records, files')
       ∧ length records = length [0%nat]
       ∧ records.*2 = strip <$> [text_hello_raw]).
Proof.
  apply (extract_text_stops_at_first_failure example_ocr example_mktemp
           [0%nat] [text_hello_raw] 1%nat TesseractError [2%nat] []).
  - repeat constructor.
  - reflexivity.
Defined.

(** C5, as stated.  The text of a record is not the string the OCR
    returned: [text.strip()] has removed the white space at its ends. *)
Lemma recorded_text_is_stripped :
  example_ocr 0%nat = Ok text_hello_raw
  ∧ extract_text_from_slides example_ocr example_mktemp [0%nat] []
    = (Ok [("tmp0.png"%string, text_hello)], [("tmp0.png"%string, 0%nat)])
  ∧ text_hello ≠ text_hello_raw
  ∧ ¬ (∀ slide text, example_ocr slide = Ok text →
         ∃ name files',
           extract_text_from_slides example_ocr example_mktemp [slide] []
             = (Ok [(name, text)], files')).
Proof.
  split; [done|]. split; [by vm_compute|]. split; [done|].
  intros H. destruct (H 0%nat text_hello_raw eq_refl) as (name & files' & Heq).
  vm_compute in Heq. discriminate Heq.
Qed.

(** C5, amended.  The text of every record is the string the OCR returned
    for that slide with the white space at its two ends removed
    ([str.strip]) and nothing else changed: what is cut off is white space,
    and what remains neither starts nor ends with white space. *)
Theorem extract_text_records_stripped {Frame E}
    (image_to_string : Frame → result E pystr) (mktemp : nat → string)
    (slides : list Frame) (texts : list pystr) (files : tmpfiles Frame) :
  Forall2 (λ s text, image_to_string s = Ok text) slides texts →
  ∃ records files',
    extract_text_from_slides image_to_string mktemp slides files
      = (Ok records, files')
    ∧ records.*2 = strip <$> texts
    ∧ Forall (λ text,
        ∃ l r, text = l ++ strip text ++ r
               ∧ Forall (λ c, isspace c = true) l
               ∧ Forall (λ c, isspace c = true) r
               ∧ (∀ c, head (strip text) = Some c → isspace c = false)
               ∧ (∀ c, last (strip text) = Some c → isspace c = false)) texts.
Proof.
  intros Hok.
  destruct (ocr_loop_ok image_to_string mktemp slides texts Hok [] files)
    as (records & Heq & Htexts & _).
  exists records, (files ++ zip records.*1 slides).
  split; [done|]. split; [done|].
  apply Forall_forall. intros text _. apply strip_spec.
Qed.

Lemma extract_text_records_stripped_witness :
  ∃ records files',
    extract_text_from_slides example_ocr example_mktemp [0; 2]%nat []
      = (Ok records, files')
    ∧ records.*2 = strip <$> [text_hello_raw; text_hello_raw]
    ∧ Forall (λ text,
        ∃ l r, text = l ++ strip text ++ r
               ∧ Forall (λ c, isspace c = true) l
               ∧ Forall (λ c, isspace c = true) r
               ∧ (∀ c, head (strip text) = Some c → isspace c = false)
               ∧ (∀ c, last (strip text) = Some c → isspace c = false))
        [text_hello_raw; text_hello_raw].
Proof.
  apply (extract_text_records_stripped example_ocr example_mktemp
           [0; 2]%nat [text_hello_raw; text_hello_raw] []).
  repeat constructor.
Defined.

(** * Further properties of [get_unique_slides] *)

Section dedup_more_facts.
Context {Frame : Type} (phash : Frame → ImageHash.t) (t : Z).

(** A failed test of the loop names a retained hash within the threshold. *)
Lemma sufficiently_different_false hs v :
  sufficiently_different t hs v = false →
  ∃ h, h ∈ hs ∧ Z.of_nat (ImageHash.hamming v h) ≤ t.
Proof.
  induction hs as [|h hs IH]; [done|].
  rewrite sufficiently_different_cons. intros Hf.
  apply andb_false_iff in Hf as [Hh|Hrest].
  - exists h. split; [by left|]. by apply Z.ltb_ge.
  - destruct (IH Hrest) as (h' & Hin & Hle). exists h'. split; [by right|done].
Qed.

(** Frames that are far apart from one another are all retained, whatever
    has been retained before them, as long as they are far from that too. *)
Lemma dedup_loop_far_apart (us l : list Frame) :
  far_apart phash t (us ++ l) →
  dedup_loop phash t (DedupState (phash <$> us) us) l =
  DedupState (phash <$> (us ++ l)) (us ++ l).
Proof.
  revert us. induction l as [|f l IH]; intros us Hfar.
  - by rewrite app_nil_r.
  - rewrite dedup_loop_cons, dedup_step_accept.
    + simpl hashes. simpl unique_frames.
      replace ((phash <$> us) ++ [phash f]) with (phash <$> (us ++ [f]))
        by (by rewrite fmap_app).
      rewrite IH; rewrite <- app_assoc; done.
    + apply sufficiently_different_spec. simpl hashes. intros h Hh.
      apply list_elem_of_fmap in Hh as (a & -> & Ha).
      apply list_elem_of_lookup in Ha as [p Hp].
      apply (Hfar p (length us)).
      * by eapply lookup_lt_Some.
      * by apply lookup_app_l_Some.
      * by rewrite list_lookup_middle.
Qed.

Lemma dedup_loop_far_apart_init (l : list Frame) :
  far_apart phash t l →
  dedup_loop phash t (DedupState [] []) l = DedupState (phash <$> l) l.
Proof. exact (dedup_loop_far_apart [] l). Qed.

(** The first frame is retained, and it comes first. *)
Lemma get_unique_slides_cons (f : Frame) (rest : list Frame) :
  ∃ more, get_unique_slides phash (f :: rest) t = f :: more.
Proof.
  unfold get_unique_slides. rewrite dedup_loop_cons.
  rewrite dedup_step_accept by done. simpl.
  destruct (dedup_loop_grows phash t rest (DedupState [phash f] [f]))
    as (ext & -> & _).
  by exists ext.
Qed.

(** Once the loop holds the hash of [f], frames within the threshold of
    [f] are dropped. *)
Lemma dedup_loop_all_close (f : Frame) (rest : list Frame) :
  (∀ g, g ∈ rest → Z.of_nat (ImageHash.hamming (phash g) (phash f)) ≤ t) →
  dedup_loop phash t (DedupState [phash f] [f]) rest = DedupState [phash f] [f].
Proof.
  induction rest as [|g rest IH]; intros Hclose; [done|].
  rewrite dedup_loop_cons, dedup_step_reject.
  - apply IH. intros g' Hg'. apply Hclose. by right.
  - simpl hashes. rewrite sufficiently_different_cons.
    apply andb_false_iff. left. apply Z.ltb_ge, Hclose. by left.
Qed.

End dedup_more_facts.

(** X1.  Frames that are pairwise further apart than the threshold are all
    retained: nothing is dropped that resembles no earlier frame. *)
Theorem get_unique_slides_keeps_far_apart {Frame}
    (phash : Frame → ImageHash.t) (frames : list Frame) (threshold : Z) :
  far_apart phash threshold frames →
  get_unique_slides phash frames threshold = frames.
Proof.
  intros Hfar. unfold get_unique_slides.
  by rewrite dedup_loop_far_apart_init.
Qed.

Lemma get_unique_slides_keeps_far_apart_witness :
  get_unique_slides id [hash_A; hash_C; hash_D] 6 = [hash_A; hash_C; hash_D].
Proof.
  apply (get_unique_slides_keeps_far_apart id [hash_A; hash_C; hash_D] 6).
  intros [|[|[|p]]] [|[|[|q]]] a b Hpq Hp Hq; simplify_eq/=;
    solve [lia | by vm_compute].
Defined.

(** X2.  Deduplicating twice is deduplicating once. *)
Theorem get_unique_slides_idempotent {Frame}
    (phash : Frame → ImageHash.t) (frames : list Frame) (threshold : Z) :
  get_unique_slides phash (get_unique_slides phash frames threshold) threshold
  = get_unique_slides phash frames threshold.
Proof.
  destruct (dedup_inv_loop phash threshold frames (DedupState [] [])
              (dedup_inv_init _ _)) as [_ Hfar].
  unfold get_unique_slides at 1.
  by rewrite dedup_loop_far_apart_init.
Qed.

(** X3.  The loop never goes back on a decision: the slides of a prefix of
    the frames are a prefix of the slides of all the frames. *)
Theorem get_unique_slides_prefix {Frame}
    (phash : Frame → ImageHash.t) (l1 l2 : list Frame) (threshold : Z) :
  get_unique_slides phash l1 threshold
    `prefix_of` get_unique_slides phash (l1 ++ l2) threshold.
Proof.
  unfold get_unique_slides. rewrite dedup_loop_app.
  destruct (dedup_loop_grows phash threshold l2
              (dedup_loop phash threshold (DedupState [] []) l1))
    as (ext & -> & _).
  by exists ext.
Qed.

(** X4.  A frame is dropped only for resembling a slide: every frame that
    is not retained lies within the threshold of a frame retained before
    it. *)
Theorem get_unique_slides_dropped_resembles {Frame}
    (phash : Frame → ImageHash.t) (frames : list Frame) (threshold : Z)
    (i : nat) (f : Frame) :
  frames !! i = Some f →
  i ∉ kept_indices phash frames threshold →
  ∃ j g, j ∈ kept_indices phash frames threshold ∧ (j < i)%nat
         ∧ frames !! j = Some g
         ∧ Z.of_nat (ImageHash.hamming (phash f) (phash g)) ≤ threshold.
Proof.
  intros Hi Hnot.
  destruct (kept_indices_split phash threshold frames i f Hi)
    as (before & after & Hk & Hb & _).
  rewrite Hk in Hnot |- *.
  destruct (sufficiently_different threshold (phash ∘ snd <$> before) (phash f))
    eqn:Hacc.
  - exfalso. apply Hnot. rewrite !elem_of_app, list_elem_of_singleton. auto.
  - apply sufficiently_different_false in Hacc as (h & Hh & Hle).
    apply list_elem_of_fmap in Hh as ([j g] & -> & Hin).
    destruct (Hb j g Hin) as [Hlt Hg].
    exists j, g. split; [|done].
    apply elem_of_app. left. by apply (list_elem_of_fmap_2' _ _ (j, g)).
Qed.

Lemma get_unique_slides_dropped_resembles_witness :
  ∃ j g, j ∈ kept_indices id [hash_A; hash_B; hash_C; hash_D] 4 ∧ (j < 2)%nat
         ∧ [hash_A; hash_B; hash_C; hash_D] !! j = Some g
         ∧ Z.of_nat (ImageHash.hamming (id hash_C) (id g)) ≤ 4.
Proof.
  apply (get_unique_slides_dropped_resembles id
           [hash_A; hash_B; hash_C; hash_D] 4 2%nat hash_C).
  - reflexivity.
  - vm_compute. intros H. apply list_elem_of_In in H. simpl in H.
    intuition discriminate.
Defined.

(** X5.  When every later frame lies within the threshold of the first
    frame, the first frame is the only slide. *)
Theorem get_unique_slides_single_slide {Frame}
    (phash : Frame → ImageHash.t) (f : Frame) (rest : list Frame)
    (threshold : Z) :
  (∀ g, g ∈ rest →
        Z.of_nat (ImageHash.hamming (phash g) (phash f)) ≤ threshold) →
  get_unique_slides phash (f :: rest) threshold = [f].
Proof.
  intros Hclose. unfold get_unique_slides.
  rewrite dedup_loop_cons, dedup_step_accept by done. simpl.
  by rewrite dedup_loop_all_close.
Qed.

Lemma get_unique_slides_single_slide_witness :
  get_unique_slides id [hash_A; hash_B; hash_C; hash_D] 10 = [hash_A].
Proof.
  apply (get_unique_slides_single_slide id hash_A [hash_B; hash_C; hash_D] 10).
  intros g Hg. apply list_elem_of_In in Hg. simpl in Hg.
  destruct Hg as [<-|[<-|[<-|[]]]]; by vm_compute.
Defined.


(** X7.  The output is never longer than the input, and it is empty exactly
    when the input is. *)
Theorem get_unique_slides_size {Frame}
    (phash : Frame → ImageHash.t) (frames : list Frame) (threshold : Z) :
  (length (get_unique_slides phash frames threshold) ≤ length frames)%nat
  ∧ (get_unique_slides phash frames threshold = [] ↔ frames = []).
Proof.
  split.
  - apply sublist_length, get_unique_slides_sublist.
  - split.
    + destruct frames as [|f rest]; [done|].
      destruct (get_unique_slides_cons phash threshold f rest) as (more & ->).
      done.
    + by intros ->.
Qed.

(** * Further properties of [extract_frames] *)

Section sample_loop_more_facts.
Context {Frame : Type}.

(** With a non-zero interval the loop reads the source to its end. *)
Lemma sample_loop_nonzero (m : Z) (pending : list Frame) frame_id frames :
  m ≠ 0 →
  ∃ out, sample_loop m pending frame_id frames = (Ok out, []).
Proof.
  intros Hm. revert frame_id frames.
  induction pending as [|f rest IH]; intros frame_id frames.
  - by exists frames.
  - simpl. rewrite py_mod_nonzero by done. apply IH.
Qed.

(** Whatever the interval, what the loop returns is what it started with
    followed by pending frames in their order. *)
Lemma sample_loop_sublist (m : Z) (pending : list Frame) frame_id frames out rest :
  sample_loop m pending frame_id frames = (Ok out, rest) →
  ∃ ext, out = frames ++ ext ∧ ext `sublist_of` pending.
Proof.
  revert frame_id frames.
  induction pending as [|f pending IH]; intros frame_id frames Hrun.
  - injection Hrun as <- <-. exists []. by rewrite app_nil_r.
  - simpl in Hrun. destruct (py_mod frame_id m) as [r|e]; [|done].
    apply IH in Hrun as (ext & -> & Hsub).
    destruct (r =? 0).
    + exists (f :: ext). rewrite <- app_assoc. split; [done|]. by constructor.
    + exists ext. split; [done|]. by constructor.
Qed.

(** The frames returned for a positive interval, through their lookups. *)
Lemma extract_frames_positive_lookup (fs : list Frame) (m : Z) :
  0 < m →
  ∃ frames,
    extract_frames (open_video fs) m = (Ok frames, MkCapture false [])
    ∧ ∀ k, frames !! k = fs !! (k * Z.to_nat m)%nat.
Proof.
  intros Hpos.
  destruct (sample_loop_positive m fs Hpos 0 0 []) as (out & Heq & Hout);
    [lia|done|].
  exists out. unfold extract_frames, open_video. simpl. rewrite Heq.
  split; [done|]. intros k. rewrite Hout. f_equal. lia.
Qed.

End sample_loop_more_facts.

(** X8.  [extract_frames] raises in one case only: interval 0 on an open
    capture that has a frame to decode, the exception being
    [ZeroDivisionError].  The capture is released exactly when the call
    returns; when it raises the capture is left open. *)
Theorem extract_frames_raises_iff {Frame} (cap : VideoCapture Frame)
    (frame_interval : Z) :
  (∀ e, (extract_frames cap frame_interval).1 = Raise e ↔
        frame_interval = 0 ∧ isOpened cap = true ∧ undecoded cap ≠ [])
  ∧ (isOpened (extract_frames cap frame_interval).2 = false ↔
     ∃ frames, (extract_frames cap frame_interval).1 = Ok frames).
Proof.
  unfold extract_frames. destruct cap as [[] fs]; simpl.
  - destruct (decide (frame_interval = 0)) as [->|Hnz].
    + destruct fs as [|f rest]; simpl.
      * split; [intros e; split; [done|by intros (_ & _ & ?)]|].
        split; [by exists []|done].
      * split; [intros []; split; done|].
        split; [done|by intros [? ?]].
    + destruct (sample_loop_nonzero frame_interval fs 0 [] Hnz) as (out & ->).
      simpl. split; [intros e; split; [done|by intros (? & _)]|].
      split; [by exists out|done].
  - split; [intros e; split; [done|by intros (_ & ? & _)]|].
    split; [by exists []|done].
Qed.

(** X9.  Whenever [extract_frames] returns, with whatever interval, the
    frames it returns are frames of the source in the order of the source,
    none of them invented or repeated. *)
Theorem extract_frames_sublist {Frame} (cap : VideoCapture Frame)
    (frame_interval : Z) (frames : list Frame) :
  (extract_frames cap frame_interval).1 = Ok frames →
  frames `sublist_of` undecoded cap.
Proof.
  unfold extract_frames. destruct cap as [[] fs]; simpl.
  - destruct (sample_loop frame_interval fs 0 []) as [[out|e] rest] eqn:Hrun;
      [|done].
    simpl. intros [= <-].
    apply sample_loop_sublist in Hrun as (ext & -> & Hsub). done.
  - intros [= <-]. apply sublist_nil_l.
Qed.

Lemma extract_frames_sublist_witness :
  [10; 12]%nat `sublist_of` undecoded (open_video [10; 11; 12]%nat).
Proof.
  apply (extract_frames_sublist (open_video [10; 11; 12]%nat) (-2)).
  reflexivity.
Defined.

(** X10.  With a positive interval, a source of [n] frames yields
    [ceil (n / interval)] frames. *)
Theorem extract_frames_count {Frame} (fs : list Frame) (frame_interval : Z) :
  0 < frame_interval →
  ∃ frames,
    (extract_frames (open_video fs) frame_interval).1 = Ok frames
    ∧ length frames
      = ((length fs + Z.to_nat frame_interval - 1) / Z.to_nat frame_interval)%nat.
Proof.
  intros Hpos.
  destruct (extract_frames_positive_lookup fs frame_interval Hpos)
    as (out & -> & Hk).
  exists out. split; [done|].
  set (m := Z.to_nat frame_interval) in *.
  assert (0 < m)%nat as Hm by lia.
  assert (length fs ≤ length out * m)%nat as Hup.
  { apply lookup_ge_None. rewrite <- Hk. by apply lookup_ge_None. }
  assert (length out = 0 ∨ (length out - 1) * m < length fs)%nat as Hlow.
  { destruct (length out) as [|L] eqn:HL; [by left|right].
    apply lookup_lt_is_Some. rewrite <- Hk. apply lookup_lt_is_Some. lia. }
  apply (Nat.div_unique _ m _ (length fs + m - 1 - m * length out)); nia.
Qed.

Lemma extract_frames_count_witness :
  ∃ frames,
    (extract_frames (open_video (seq 0 100)) 30).1 = Ok frames
    ∧ length frames
      = ((length (seq 0 100) + Z.to_nat 30 - 1) / Z.to_nat 30)%nat.
Proof. apply (extract_frames_count (seq 0 100) 30). lia. Defined.

(** X11.  Interval 1 keeps every frame. *)
Theorem extract_frames_interval_one {Frame} (fs : list Frame) :
  extract_frames (open_video fs) 1 = (Ok fs, MkCapture false []).
Proof.
  destruct (extract_frames_positive_lookup fs 1) as (out & -> & Hk); [lia|].
  f_equal. f_equal. apply list_eq. intros k. rewrite Hk. f_equal. lia.
Qed.

(** X12.  An interval at least as large as the number of frames keeps the
    first frame only. *)
Theorem extract_frames_interval_large {Frame} (f : Frame) (rest : list Frame)
    (frame_interval : Z) :
  Z.of_nat (length (f :: rest)) ≤ frame_interval →
  extract_frames (open_video (f :: rest)) frame_interval
    = (Ok [f], MkCapture false []).
Proof.
  intros Hlarge.
  destruct (extract_frames_positive_lookup (f :: rest) frame_interval)
    as (out & -> & Hk); [simpl in Hlarge; lia|].
  f_equal. f_equal. apply list_eq. intros [|k].
  - by rewrite Hk.
  - rewrite Hk. simpl ([f] !! S k). apply lookup_ge_None. nia.
Qed.

Lemma extract_frames_interval_large_witness :
  extract_frames (open_video [10; 11; 12]%nat) 3
    = (Ok [10%nat], MkCapture false []).
Proof.
  apply (extract_frames_interval_large 10%nat [11; 12]%nat 3). simpl. lia.
Defined.

(** * Files and the small monad *)

Section io_facts.
Context {S E : Type}.

Lemma io_bind_Ok {A B} (k : A → io S E B) (c : io S E A) s a s' :
  c s = (Ok a, s') → (c ≫= k) s = k a s'.
Proof. intros H. unfold mbind, io_bind. by rewrite H. Qed.

Lemma io_bind_Raise {A B} (k : A → io S E B) (c : io S E A) s e s' :
  c s = (Raise e, s') → (c ≫= k) s = (Raise e, s').
Proof. intros H. unfold mbind, io_bind. by rewrite H. Qed.

Lemma map_exn_Ok {E' A} (inj : E → E') (c : io S E A) s a s' :
  c s = (Ok a, s') → map_exn inj c s = (Ok a, s').
Proof. intros H. unfold map_exn, try_except. by rewrite H. Qed.

Lemma map_exn_Raise {E' A} (inj : E → E') (c : io S E A) s e s' :
  c s = (Raise e, s') → map_exn inj c s = (Raise (inj e), s').
Proof. intros H. unfold map_exn, try_except. by rewrite H. Qed.

End io_facts.

Section read_file_facts.
Context {A : Type}.

Lemma read_file_app (l1 l2 : list (string * A)) name :
  read_file (l1 ++ l2) name =
  match read_file l2 name with
  | Some c => Some c
  | None => read_file l1 name
  end.
Proof.
  induction l1 as [|[n c] l1 IH]; simpl.
  - by destruct (read_file l2 name).
  - rewrite IH. by destruct (read_file l2 name).
Qed.

Lemma read_file_None (files : list (string * A)) name :
  name ∉ files.*1 → read_file files name = None.
Proof.
  induction files as [|[n c] files IH]; [done|]. csimpl.
  intros Hnot. apply not_elem_of_cons in Hnot as [Hne Hnot].
  rewrite IH by done. by rewrite bool_decide_eq_false_2.
Qed.

Lemma read_file_is_Some (files : list (string * A)) name :
  name ∈ files.*1 → is_Some (read_file files name).
Proof.
  induction files as [|[n c] files IH]; csimpl.
  - intros H. by apply elem_of_nil in H.
  - intros [<-|Hin]%elem_of_cons.
    + destruct (read_file files name); [done|].
      by rewrite bool_decide_eq_true_2.
    + destruct (IH Hin) as [c' ->]. done.
Qed.

(** Files written under distinct names are read back as written. *)
Lemma read_file_zip (names : list string) (contents : list A) :
  NoDup names → length names = length contents →
  Forall2 (λ name c, read_file (zip names contents) name = Some c)
          names contents.
Proof.
  intros Hnd Hlen. apply Forall2_same_length_lookup. split; [done|].
  revert contents Hlen.
  induction Hnd as [|n names Hn Hnd IH]; intros contents Hlen i name c Hi Hc.
  - by rewrite lookup_nil in Hi.
  - destruct contents as [|c0 contents]; [done|]. simpl.
    simpl in Hlen. destruct i as [|i]; simpl in Hi, Hc.
    + injection Hi as ->. injection Hc as ->.
      rewrite read_file_None; [by rewrite bool_decide_eq_true_2|].
      intros Hin. apply Hn.
      rewrite fst_zip in Hin by lia. done.
    + by rewrite (IH contents ltac:(lia) i name c).
Qed.

Lemma read_file_remove_file (files : list (string * A)) name :
  read_file (remove_file files name) name = None.
Proof.
  apply read_file_None. unfold remove_file.
  intros ([n c] & -> & Hin)%list_elem_of_fmap.
  apply list_elem_of_filter in Hin as [Hne _]. done.
Qed.

Lemma remove_file_snoc (files : list (string * A)) name c :
  remove_file (files ++ [(name, c)]) name = remove_file files name.
Proof.
  unfold remove_file. rewrite filter_app.
  rewrite (filter_cons_False _ (name, c)); [|by intros []].
  by rewrite filter_nil, app_nil_r.
Qed.

End read_file_facts.

(** * Further properties of [extract_text_from_slides] *)

(** X13.  When the OCR returns on every slide and the temporary files get
    distinct names, every slide is written to a file of its own, in order:
    the file named in the [i]-th record holds the [i]-th slide, and no
    other file changes. *)
Theorem extract_text_writes_each_slide {Frame E}
    (image_to_string : Frame → result E pystr) (mktemp : nat → string)
    (slides : list Frame) (texts : list pystr) (files : tmpfiles Frame) :
  Forall2 (λ s text, image_to_string s = Ok text) slides texts →
  NoDup (mktemp <$> seq (length files) (length slides)) →
  ∃ records files',
    extract_text_from_slides image_to_string mktemp slides files
      = (Ok records, files')
    ∧ files'.*2 = files.*2 ++ slides
    ∧ Forall2 (λ r slide, read_file files' r.1 = Some slide) records slides
    ∧ (∀ name, name ∉ records.*1 →
               read_file files' name = read_file files name).
Proof.
  intros Hok Hnd.
  destruct (ocr_loop_ok image_to_string mktemp slides texts Hok [] files)
    as (records & Heq & _ & Hnames).
  assert (length records.*1 = length slides) as Hlen
    by (by rewrite Hnames, length_fmap, length_seq).
  exists records, (files ++ zip records.*1 slides).
  split; [done|]. split; [|split].
  - rewrite fmap_app, snd_zip by lia. done.
  - apply (Forall2_fmap_l fst
             (λ name slide,
                read_file (files ++ zip records.*1 slides) name = Some slide)).
    eapply Forall2_impl; [apply read_file_zip; [by rewrite Hnames|done]|].
    intros name slide Hread. simpl. by rewrite read_file_app, Hread.
  - intros name Hname. rewrite read_file_app, read_file_None; [done|].
    by rewrite fst_zip by lia.
Qed.

Lemma extract_text_writes_each_slide_witness :
  ∃ records files',
    extract_text_from_slides example_ocr example_mktemp [0; 2]%nat []
      = (Ok records, files')
    ∧ files'.*2 = [0; 2]%nat
    ∧ Forall2 (λ r slide, read_file files' r.1 = Some slide)
              records [0; 2]%nat
    ∧ (∀ name, name ∉ records.*1 → read_file files' name = read_file [] name).
Proof.
  apply (extract_text_writes_each_slide example_ocr example_mktemp
           [0; 2]%nat [text_hello_raw; text_hello_raw] []).
  - repeat constructor.
  - apply (bool_decide_unpack _). by vm_compute.
Defined.

(** * [create_ppt] *)

Section create_ppt_facts.
Context {Frame : Type}.

Lemma open_png_Some (w : world Frame) name image :
  read_file (pngs w) name = Some image → open_png name w = (Ok image, w).
Proof. intros H. unfold open_png. by rewrite H. Qed.

Lemma open_png_None (w : world Frame) name :
  read_file (pngs w) name = None →
  open_png name w = (Raise (FileNotFoundError name), w).
Proof. intros H. unfold open_png. by rewrite H. Qed.

(** All pictures are there: one slide per record, in order. *)
Lemma ppt_loop_ok (w : world Frame) slide_texts images :
  Forall2 (λ r image, read_file (pngs w) r.1 = Some image) slide_texts images →
  ∀ prs,
    ppt_loop slide_texts prs w
    = (Ok (prs ++ zip_with ppt_slide_of images slide_texts.*2), w).
Proof.
  induction 1 as [|[fn text] image slide_texts images Hread _ IH]; intros prs.
  - simpl. by rewrite app_nil_r.
  - simpl ppt_loop. rewrite (io_bind_Ok _ _ _ _ _ (open_png_Some _ _ _ Hread)).
    rewrite IH, <- app_assoc. done.
Qed.

(** The first picture that is not there ends the loop. *)
Lemma ppt_loop_raise (w : world Frame) pre fn text post :
  Forall (λ r, is_Some (read_file (pngs w) r.1)) pre →
  read_file (pngs w) fn = None →
  ∀ prs,
    ppt_loop (pre ++ (fn, text) :: post) prs w
    = (Raise (FileNotFoundError fn), w).
Proof.
  intros Hpre Hnone.
  induction Hpre as [|[fn' text'] pre [image Hread] _ IH]; intros prs.
  - simpl. by rewrite (io_bind_Raise _ _ _ _ _ (open_png_None _ _ Hnone)).
  - simpl. rewrite (io_bind_Ok _ _ _ _ _ (open_png_Some _ _ _ Hread)).
    apply IH.
Qed.

(** The loop of [show_slides] when all pictures are there. *)
Lemma show_slides_ok slide_texts (images : list Frame)
    (v : list (string * VideoCapture Frame)) (p : tmpfiles Frame)
    (x : tmpfiles (Presentation Frame)) :
  Forall2 (λ r image, read_file p r.1 = Some image) slide_texts images →
  ∀ u,
    show_slides slide_texts (World u v p x)
    = (Ok (),
       World (u ++ concat (zip_with slide_calls images slide_texts.*2)) v p x).
Proof.
  induction 1 as [|[fn text] image slide_texts images Hread _ IH]; intros u.
  - simpl. by rewrite app_nil_r.
  - simpl show_slides.
    rewrite (io_bind_Ok _ _ _ image (World u v p x)) by (by apply open_png_Some).
    unfold mbind at 1 2 3 4, io_bind, show. simpl.
    rewrite IH. csimpl. by rewrite <- !app_assoc.
Qed.

Lemma create_ppt_ok (mktemp_pptx : nat → string) slide_texts images
    (w : world Frame) :
  Forall2 (λ r image, read_file (pngs w) r.1 = Some image) slide_texts images →
  create_ppt mktemp_pptx slide_texts w
  = (Ok (mktemp_pptx (length (pptxs w))),
     World (ui w) (videos w) (pngs w)
           (pptxs w ++ [(mktemp_pptx (length (pptxs w)),
                         zip_with ppt_slide_of images slide_texts.*2)])).
Proof.
  intros Hread. unfold create_ppt.
  rewrite (io_bind_Ok _ _ _ _ _ (ppt_loop_ok w _ _ Hread [])).
  by destruct w.
Qed.

End create_ppt_facts.

(** X14.  When the picture of every record can be opened, [create_ppt]
    saves, under the next temporary name, a presentation with one slide per
    record in the order of the records, slide [i] showing the picture of
    record [i] and carrying its text in a second paragraph; it returns that
    name and touches nothing else. *)
Theorem create_ppt_one_slide_per_record {Frame} (mktemp_pptx : nat → string)
    (slide_texts : list (string * pystr)) (images : list Frame)
    (w : world Frame) :
  Forall2 (λ r image, read_file (pngs w) r.1 = Some image) slide_texts images →
  create_ppt mktemp_pptx slide_texts w
  = (Ok (mktemp_pptx (length (pptxs w))),
     World (ui w) (videos w) (pngs w)
           (pptxs w ++ [(mktemp_pptx (length (pptxs w)),
                         zip_with ppt_slide_of images slide_texts.*2)])).
Proof. apply create_ppt_ok. Qed.

Lemma create_ppt_one_slide_per_record_witness :
  create_ppt example_mktemp [("a.png"%string, text_hello)]
             (World [] [] [("a.png"%string, 7%nat)] [])
  = (Ok (example_mktemp 0),
     World [] [] [("a.png"%string, 7%nat)]
           [(example_mktemp 0, zip_with ppt_slide_of [7%nat] [text_hello])]).
Proof.
  apply (create_ppt_one_slide_per_record example_mktemp
           [("a.png"%string, text_hello)] [7%nat]
           (World [] [] [("a.png"%string, 7%nat)] [])).
  repeat constructor.
Defined.

(** X15.  When the picture of a record cannot be opened, the pictures of
    the records before it being there, [create_ppt] ends with
    [FileNotFoundError] for that file and saves no presentation. *)
Theorem create_ppt_missing_picture {Frame} (mktemp_pptx : nat → string)
    (pre : list (string * pystr)) (fn : string) (text : pystr)
    (post : list (string * pystr)) (w : world Frame) :
  Forall (λ r, is_Some (read_file (pngs w) r.1)) pre →
  read_file (pngs w) fn = None →
  create_ppt mktemp_pptx (pre ++ (fn, text) :: post) w
  = (Raise (FileNotFoundError fn), w).
Proof.
  intros Hpre Hnone. unfold create_ppt.
  by rewrite (io_bind_Raise _ _ _ _ _ (ppt_loop_raise w _ _ _ _ Hpre Hnone [])).
Qed.

Lemma create_ppt_missing_picture_witness :
  create_ppt example_mktemp
    ([("a.png"%string, text_hello)] ++ ("b.png"%string, text_hello) :: [])
    (World [] [] [("a.png"%string, 7%nat)] [])
  = (Raise (FileNotFoundError "b.png"),
     World [] [] [("a.png"%string, 7%nat)] []).
Proof.
  apply (create_ppt_missing_picture example_mktemp
           [("a.png"%string, text_hello)] "b.png" text_hello []
           (World [] [] [("a.png"%string, 7%nat)] [])).
  - repeat constructor. by exists 7%nat.
  - reflexivity.
Defined.

(** * [main] *)

Section ocr_outcome_facts.
Context {Frame E : Type} (image_to_string : Frame → result E pystr)
        (mktemp : nat → string).

(** However the OCR behaves: when the loop returns, every record names a
    file that has been written; when it raises, the OCR raised on one of
    the slides. *)
Lemma ocr_loop_outcome (slides : list Frame) :
  ∀ slide_texts files,
    (∀ name, name ∈ slide_texts.*1 → name ∈ files.*1) →
    match ocr_loop image_to_string mktemp slides slide_texts files with
    | (Ok records, files') => ∀ name, name ∈ records.*1 → name ∈ files'.*1
    | (Raise e, _) => ∃ slide, slide ∈ slides ∧ image_to_string slide = Raise e
    end.
Proof.
  induction slides as [|slide slides IH]; intros slide_texts files Hacc; [done|].
  destruct (image_to_string slide) as [text|e] eqn:Hocr.
  - rewrite (ocr_loop_cons_ok _ _ _ _ _ _ _ Hocr).
    specialize (IH (slide_texts ++ [(mktemp (length files), strip text)])
                   (files ++ [(mktemp (length files), slide)])).
    destruct (ocr_loop _ _ slides _ _) as [[records|e] files'].
    + apply IH. intros name. rewrite !fmap_app, !elem_of_app.
      intros [Hin|Hin]; [left; by apply Hacc | right; exact Hin].
    + destruct IH as (s & Hs & Hraise).
      * intros name. rewrite !fmap_app, !elem_of_app.
        intros [Hin|Hin]; [left; by apply Hacc | right; exact Hin].
      * exists s. split; [by right|done].
  - rewrite (ocr_loop_cons_raise _ _ _ _ _ _ _ Hocr).
    exists slide. split; [by left|done].
Qed.

Lemma extract_text_outcome (slides : list Frame) files :
  match extract_text_from_slides image_to_string mktemp slides files with
  | (Ok records, files') =>
      ∃ images,
        Forall2 (λ r image, read_file files' r.1 = Some image) records images
  | (Raise e, _) => ∃ slide, slide ∈ slides ∧ image_to_string slide = Raise e
  end.
Proof.
  unfold extract_text_from_slides.
  pose proof (ocr_loop_outcome slides [] files) as H.
  destruct (ocr_loop _ _ slides _ _) as [[records|e] files'];
    [|apply H; intros name Hin; by apply elem_of_nil in Hin].
  assert (∀ name, name ∈ records.*1 → name ∈ files'.*1) as Hnames
    by (apply H; intros name Hin; by apply elem_of_nil in Hin).
  clear H. induction records as [|[n text] records IH].
  - by exists [].
  - destruct IH as [images Himages].
    { intros name Hin. apply Hnames. by right. }
    destruct (read_file_is_Some files' n) as [image Himage].
    { apply Hnames. by left. }
    exists (image :: images). by constructor.
Qed.

(** The OCR returns on every slide and the names are distinct: the records
    carry the stripped texts and name the files that hold the slides. *)
Lemma extract_text_ok_readable (slides : list Frame) texts files :
  Forall2 (λ s text, image_to_string s = Ok text) slides texts →
  NoDup (mktemp <$> seq (length files) (length slides)) →
  ∃ records,
    extract_text_from_slides image_to_string mktemp slides files
      = (Ok records,
         files ++ zip (mktemp <$> seq (length files) (length slides)) slides)
    ∧ records.*2 = strip <$> texts
    ∧ Forall2 (λ r slide,
         read_file
           (files ++ zip (mktemp <$> seq (length files) (length slides)) slides)
           r.1 = Some slide) records slides.
Proof.
  intros Hok Hnd.
  destruct (ocr_loop_ok image_to_string mktemp slides texts Hok [] files)
    as (records & Heq & Htexts & Hnames).
  exists records. rewrite <- Hnames. split; [done|]. split; [done|].
  apply (Forall2_fmap_l fst
           (λ name slide,
              read_file (files ++ zip records.*1 slides) name = Some slide)).
  eapply Forall2_impl.
  - apply read_file_zip; [by rewrite Hnames|].
    by rewrite Hnames, length_fmap, length_seq.
  - intros name slide Hread. simpl. by rewrite read_file_app, Hread.
Qed.

End ocr_outcome_facts.

Lemma extract_frames_nonzero_Ok {Frame} (cap : VideoCapture Frame) (m : Z) :
  m ≠ 0 → ∃ frames, (extract_frames cap m).1 = Ok frames.
Proof.
  intros Hm. unfold extract_frames. destruct (isOpened cap); [|by exists []].
  destruct (sample_loop_nonzero m (undecoded cap) 0 [] Hm) as (out & ->).
  by exists out.
Qed.

Section main_facts.
Local Arguments extract_text_from_slides : simpl never.
Local Arguments get_unique_slides : simpl never.
Local Arguments extract_frames : simpl never.
Local Arguments create_ppt : simpl never.
Local Arguments show_slides : simpl never.
Local Arguments read_file : simpl never.
Local Arguments remove_file : simpl never.
Local Arguments open_pptx : simpl never.
Local Arguments String.eqb : simpl never.
Context {Frame Eocr Edl : Type}
        (phash : Frame → ImageHash.t)
        (image_to_string : Frame → result Eocr pystr)
        (mktemp mktemp_pptx : nat → string)
        (ydl_download : string → result Edl (VideoCapture Frame))
        (str : Edl → string)
        (temp_video_path : string).

Lemma main_ocr_raise url video frames e files' (w : world Frame) :
  truthy url = true → truthy temp_video_path = true →
  ydl_download url = Ok video →
  (extract_frames video 30).1 = Ok frames →
  extract_text_from_slides image_to_string mktemp
    (get_unique_slides phash frames default_hash_difference_threshold) (pngs w)
    = (Raise e, files') →
  main phash image_to_string mktemp mktemp_pptx ydl_download str
       temp_video_path url true w
  = (Raise (ExnOcr e),
     World (ui w ++ calls_before_download ++ calls_before_extraction)
           (remove_file (videos w) temp_video_path) files' (pptxs w)).
Proof.
  intros Hurl Hpath Hdl Hframes Hocr.
  unfold main. rewrite Hurl.
  unfold with_temporary_directory, download_video, try_except, ydl_run,
    map_exn, try_except, extract_frames_at, VideoCapture_of, on_pngs.
  unfold mbind, io_bind, show, mret, io_ret. simpl.
  rewrite Hdl. simpl. rewrite Hpath. simpl.
  rewrite read_file_app. unfold read_file at 1.
  rewrite bool_decide_eq_true_2 by done. simpl.
  rewrite Hframes. simpl. rewrite Hocr. simpl.
  rewrite remove_file_snoc. rewrite <- !app_assoc. done.
Qed.

Lemma main_ocr_ok url video frames records images files' (w : world Frame) :
  truthy url = true → truthy temp_video_path = true →
  ydl_download url = Ok video →
  (extract_frames video 30).1 = Ok frames →
  extract_text_from_slides image_to_string mktemp
    (get_unique_slides phash frames default_hash_difference_threshold) (pngs w)
    = (Ok records, files') →
  Forall2 (λ r image, read_file files' r.1 = Some image) records images →
  main phash image_to_string mktemp mktemp_pptx ydl_download str
       temp_video_path url true w
  = (Ok (),
     World (ui w ++ calls_before_download ++ calls_before_extraction
                 ++ calls_after_ppt
                 ++ concat (zip_with slide_calls images records.*2)
                 ++ [st_download_button "Download PowerPoint Presentation"
                       (zip_with ppt_slide_of images records.*2)
                       "presentation.pptx"])
           (remove_file (videos w) temp_video_path) files'
           (pptxs w ++ [(mktemp_pptx (length (pptxs w)),
                         zip_with ppt_slide_of images records.*2)])).
Proof.
  intros Hurl Hpath Hdl Hframes Hocr Hread.
  unfold main. rewrite Hurl.
  unfold with_temporary_directory, download_video, try_except, ydl_run,
    map_exn, try_except, extract_frames_at, VideoCapture_of, on_pngs.
  unfold mbind, io_bind, show, mret, io_ret. simpl.
  rewrite Hdl. simpl. rewrite Hpath. simpl.
  rewrite read_file_app. unfold read_file at 1.
  rewrite bool_decide_eq_true_2 by done. simpl.
  rewrite Hframes. simpl. rewrite Hocr. simpl.
  erewrite create_ppt_ok by exact Hread. simpl.
  erewrite show_slides_ok by exact Hread.
  unfold open_pptx. simpl. rewrite read_file_app. unfold read_file at 1.
  rewrite bool_decide_eq_true_2 by done. simpl.
  rewrite remove_file_snoc. rewrite <- !app_assoc. done.
Qed.

Lemma main_download_raise url e (w : world Frame) :
  truthy url = true →
  ydl_download url = Raise e →
  main phash image_to_string mktemp mktemp_pptx ydl_download str
       temp_video_path url true w
  = (Ok (),
     World (ui w ++ calls_before_download
                 ++ [st_error "Failed to download video. Please check the URL or try again later.";
                     py_print (String.append "Error: " (str e));
                     st_error "Video download failed. Please check the URL."])
           (remove_file (videos w) temp_video_path) (pngs w) (pptxs w)).
Proof.
  intros Hurl Hdl. unfold main. rewrite Hurl.
  unfold with_temporary_directory, download_video, try_except, ydl_run.
  unfold mbind, io_bind, show, mret, io_ret. simpl.
  rewrite Hdl. simpl. rewrite <- !app_assoc. done.
Qed.

Lemma main_idle url button (w : world Frame) :
  truthy url = false ∨ button = false →
  (main phash image_to_string mktemp mktemp_pptx ydl_download str
        temp_video_path url button w).1 = Ok ().
Proof.
  unfold main, mbind, io_bind, show, mret, io_ret. simpl.
  intros [->| ->]; [done|]. by destruct (truthy url).
Qed.

Lemma main_empty_path url video (w : world Frame) :
  truthy url = true → truthy temp_video_path = false →
  ydl_download url = Ok video →
  (main phash image_to_string mktemp mktemp_pptx ydl_download str
        temp_video_path url true w).1 = Ok ().
Proof.
  intros Hurl Hpath Hdl. unfold main. rewrite Hurl.
  unfold with_temporary_directory, download_video, try_except, ydl_run.
  unfold mbind, io_bind, show, mret, io_ret. simpl.
  rewrite Hdl. simpl. rewrite Hpath. done.
Qed.

Lemma main_video_removed url (w : world Frame) :
  truthy url = true →
  read_file (videos (main phash image_to_string mktemp mktemp_pptx ydl_download
                       str temp_video_path url true w).2) temp_video_path
  = None.
Proof.
  intros Hurl. unfold main. rewrite Hurl.
  unfold mbind at 1 2 3 4, io_bind, show. simpl.
  unfold with_temporary_directory.
  match goal with |- context [let (_, _) := ?b in _] => destruct b as [r w'] end.
  simpl. apply read_file_remove_file.
Qed.

End main_facts.


(** X16.  Between sampling and deduplication: with a positive interval
    every slide is the frame the source decodes at a multiple of the
    interval, the multiples increase strictly along the slides, and the
    first slide is the first frame of the source. *)
Theorem sampled_slides_positions {Frame} (phash : Frame → ImageHash.t)
    (fs : list Frame) (frame_interval threshold : Z) :
  0 < frame_interval →
  ∃ frames,
    (extract_frames (open_video fs) frame_interval).1 = Ok frames
    ∧ StronglySorted lt (kept_indices phash frames threshold)
    ∧ Forall2 (λ k slide, fs !! (k * Z.to_nat frame_interval)%nat = Some slide)
              (kept_indices phash frames threshold)
              (get_unique_slides phash frames threshold)
    ∧ head (get_unique_slides phash frames threshold) = head fs.
Proof.
  intros Hpos.
  destruct (extract_frames_positive_lookup fs frame_interval Hpos)
    as (frames & Heq & Hk).
  exists frames. rewrite Heq. split; [done|]. split; [|split].
  - eapply StronglySorted_sublist;
      [apply kept_indices_sublist | apply StronglySorted_lt_seq].
  - eapply Forall2_impl; [apply kept_indices_lookup|].
    intros k slide Hslide. simpl in Hslide. by rewrite <- Hk.
  - pose proof (Hk 0%nat) as H0. simpl in H0.
    destruct frames as [|f frames]; destruct fs as [|f' fs]; simplify_eq/=.
    + done.
    + by destruct (get_unique_slides_cons phash threshold f' frames)
        as (more & ->).
Qed.

Lemma sampled_slides_positions_witness :
  ∃ frames,
    (extract_frames (open_video (seq 0 70)) 30).1 = Ok frames
    ∧ StronglySorted lt (kept_indices example_phash frames 5)
    ∧ Forall2 (λ k slide, seq 0 70 !! (k * Z.to_nat 30)%nat = Some slide)
              (kept_indices example_phash frames 5)
              (get_unique_slides example_phash frames 5)
    ∧ head (get_unique_slides example_phash frames 5) = head (seq 0 70).
Proof. apply (sampled_slides_positions example_phash (seq 0 70) 30 5). lia. Defined.

(** X17.  The extraction followed by [create_ppt]: when the OCR returns
    on every slide and the temporary files get distinct names, [create_ppt]
    on the records finds every picture, and the presentation it saves has
    one slide per input slide, in order, showing that very slide with its
    stripped text. *)
Theorem slides_to_presentation {Frame E}
    (image_to_string : Frame → result E pystr)
    (mktemp mktemp_pptx : nat → string)
    (slides : list Frame) (texts : list pystr) (w : world Frame) :
  Forall2 (λ s text, image_to_string s = Ok text) slides texts →
  NoDup (mktemp <$> seq (length (pngs w)) (length slides)) →
  ∃ records files',
    extract_text_from_slides image_to_string mktemp slides (pngs w)
      = (Ok records, files')
    ∧ create_ppt mktemp_pptx records (World (ui w) (videos w) files' (pptxs w))
      = (Ok (mktemp_pptx (length (pptxs w))),
         World (ui w) (videos w) files'
               (pptxs w ++ [(mktemp_pptx (length (pptxs w)),
                             zip_with ppt_slide_of slides (strip <$> texts))])).
Proof.
  intros Hok Hnd.
  destruct (extract_text_ok_readable image_to_string mktemp slides texts
              (pngs w) Hok Hnd) as (records & Heq & Htexts & Hread).
  eexists records, _. split; [exact Heq|].
  erewrite create_ppt_ok by exact Hread. simpl. by rewrite Htexts.
Qed.

Lemma slides_to_presentation_witness :
  ∃ records files',
    extract_text_from_slides example_ocr example_mktemp [0; 2]%nat
      (pngs example_world) = (Ok records, files')
    ∧ create_ppt example_mktemp_pptx records
        (World (ui example_world) (videos example_world) files'
               (pptxs example_world))
      = (Ok (example_mktemp_pptx (length (pptxs example_world))),
         World (ui example_world) (videos example_world) files'
               (pptxs example_world
                ++ [(example_mktemp_pptx (length (pptxs example_world)),
                     zip_with ppt_slide_of [0; 2]%nat
                       (strip <$> [text_hello_raw; text_hello_raw]))])).
Proof.
  apply (slides_to_presentation example_ocr example_mktemp example_mktemp_pptx
           [0; 2]%nat [text_hello_raw; text_hello_raw] example_world).
  - repeat constructor.
  - apply (bool_decide_unpack _). by vm_compute.
Defined.

(** X18.  A download that raises does not end [main] with an exception:
    the page gets the two error messages, the exception is printed, and no
    picture or presentation is written. *)
Theorem main_download_failure {Frame Eocr Edl}
    (phash : Frame → ImageHash.t)
    (image_to_string : Frame → result Eocr pystr)
    (mktemp mktemp_pptx : nat → string)
    (ydl_download : string → result Edl (VideoCapture Frame))
    (str : Edl → string) (temp_video_path url : string) (e : Edl)
    (w : world Frame) :
  truthy url = true →
  ydl_download url = Raise e →
  main phash image_to_string mktemp mktemp_pptx ydl_download str
       temp_video_path url true w
  = (Ok (),
     World (ui w ++ calls_before_download
                 ++ [st_error "Failed to download video. Please check the URL or try again later.";
                     py_print (String.append "Error: " (str e));
                     st_error "Video download failed. Please check the URL."])
           (remove_file (videos w) temp_video_path) (pngs w) (pptxs w)).
Proof. apply main_download_raise. Qed.

Lemma main_download_failure_witness :
  main example_phash example_ocr example_mktemp example_mktemp_pptx
       example_ydl id "tmpdir/video.mp4" "https://youtu.be/gone" true
       example_world
  = (Ok (),
     World (ui example_world ++ calls_before_download
                 ++ [st_error "Failed to download video. Please check the URL or try again later.";
                     py_print (String.append "Error: " (id "HTTP Error 404"%string));
                     st_error "Video download failed. Please check the URL."])
           (remove_file (videos example_world) "tmpdir/video.mp4")
           (pngs example_world) (pptxs example_world)).
Proof.
  apply (main_download_failure example_phash example_ocr example_mktemp
           example_mktemp_pptx example_ydl id "tmpdir/video.mp4"
           "https://youtu.be/gone" "HTTP Error 404"%string example_world);
    reflexivity.
Defined.

(** X19.  A run of [main] that succeeds: the video is downloaded, the OCR
    returns on every slide, the temporary pictures get distinct names.
    Then [main] returns; the page shows, after the fixed messages, every
    slide with its stripped text in the order of the slides and the
    download button with the presentation; the presentation saved has one
    slide per slide of [get_unique_slides] on every 30th frame with
    threshold 5; the pictures stay on disk and the video is removed. *)
Theorem main_success {Frame Eocr Edl}
    (phash : Frame → ImageHash.t)
    (image_to_string : Frame → result Eocr pystr)
    (mktemp mktemp_pptx : nat → string)
    (ydl_download : string → result Edl (VideoCapture Frame))
    (str : Edl → string) (temp_video_path url : string)
    (video : VideoCapture Frame) (frames : list Frame) (texts : list pystr)
    (w : world Frame) :
  truthy url = true → truthy temp_video_path = true →
  ydl_download url = Ok video →
  (extract_frames video 30).1 = Ok frames →
  Forall2 (λ s text, image_to_string s = Ok text)
          (get_unique_slides phash frames 5) texts →
  NoDup (mktemp <$> seq (length (pngs w))
                        (length (get_unique_slides phash frames 5))) →
  main phash image_to_string mktemp mktemp_pptx ydl_download str
       temp_video_path url true w
  = (Ok (),
     World (ui w ++ calls_before_download ++ calls_before_extraction
                 ++ calls_after_ppt
                 ++ concat (zip_with slide_calls
                              (get_unique_slides phash frames 5)
                              (strip <$> texts))
                 ++ [st_download_button "Download PowerPoint Presentation"
                       (zip_with ppt_slide_of
                          (get_unique_slides phash frames 5) (strip <$> texts))
                       "presentation.pptx"])
           (remove_file (videos w) temp_video_path)
           (pngs w ++ zip (mktemp <$> seq (length (pngs w))
                             (length (get_unique_slides phash frames 5)))
                          (get_unique_slides phash frames 5))
           (pptxs w ++ [(mktemp_pptx (length (pptxs w)),
                         zip_with ppt_slide_of
                           (get_unique_slides phash frames 5)
                           (strip <$> texts))])).
Proof.
  intros Hurl Hpath Hdl Hframes Hok Hnd.
  destruct (extract_text_ok_readable image_to_string mktemp _ texts
              (pngs w) Hok Hnd) as (records & Heq & Htexts & Hread).
  rewrite <- Htexts.
  by apply (main_ocr_ok phash image_to_string mktemp mktemp_pptx ydl_download
              str temp_video_path url video frames records).
Qed.

Lemma main_success_witness :
  main example_phash example_ocr example_mktemp example_mktemp_pptx
       example_ydl id "tmpdir/video.mp4" "https://youtu.be/ok" true
       example_world
  = (Ok (),
     World (ui example_world ++ calls_before_download ++ calls_before_extraction
                 ++ calls_after_ppt
                 ++ concat (zip_with slide_calls
                              (get_unique_slides example_phash [0; 30; 60]%nat 5)
                              (strip <$> [text_hello_raw; text_hello_raw]))
                 ++ [st_download_button "Download PowerPoint Presentation"
                       (zip_with ppt_slide_of
                          (get_unique_slides example_phash [0; 30; 60]%nat 5)
                          (strip <$> [text_hello_raw; text_hello_raw]))
                       "presentation.pptx"])
           (remove_file (videos example_world) "tmpdir/video.mp4")
           (pngs example_world
            ++ zip (example_mktemp <$> seq (length (pngs example_world))
                      (length (get_unique_slides example_phash
                                 [0; 30; 60]%nat 5)))
                   (get_unique_slides example_phash [0; 30; 60]%nat 5))
           (pptxs example_world
            ++ [(example_mktemp_pptx (length (pptxs example_world)),
                 zip_with ppt_slide_of
                   (get_unique_slides example_phash [0; 30; 60]%nat 5)
                   (strip <$> [text_hello_raw; text_hello_raw]))])).
Proof.
  apply (main_success example_phash example_ocr example_mktemp
           example_mktemp_pptx example_ydl id "tmpdir/video.mp4"
           "https://youtu.be/ok" example_video [0; 30; 60]%nat
           [text_hello_raw; text_hello_raw] example_world).
  - reflexivity.
  - reflexivity.
  - reflexivity.
  - by vm_compute.
  - vm_compute. repeat constructor.
  - apply (bool_decide_unpack _). by vm_compute.
Defined.

(** X20.  When the OCR raises on a slide, [main] ends with that exception
    right after the last spinner: no success message, no slide shown, no
    presentation saved.  The pictures of the slides before the failing one
    stay on disk, and the video is removed all the same. *)
Theorem main_ocr_failure {Frame Eocr Edl}
    (phash : Frame → ImageHash.t)
    (image_to_string : Frame → result Eocr pystr)
    (mktemp mktemp_pptx : nat → string)
    (ydl_download : string → result Edl (VideoCapture Frame))
    (str : Edl → string) (temp_video_path url : string)
    (video : VideoCapture Frame) (frames : list Frame)
    (pre : list Frame) (texts : list pystr) (slide : Frame) (e : Eocr)
    (post : list Frame) (w : world Frame) :
  truthy url = true → truthy temp_video_path = true →
  ydl_download url = Ok video →
  (extract_frames video 30).1 = Ok frames →
  get_unique_slides phash frames 5 = pre ++ slide :: post →
  Forall2 (λ s text, image_to_string s = Ok text) pre texts →
  image_to_string slide = Raise e →
  ∃ files',
    main phash image_to_string mktemp mktemp_pptx ydl_download str
         temp_video_path url true w
    = (Raise (ExnOcr e),
       World (ui w ++ calls_before_download ++ calls_before_extraction)
             (remove_file (videos w) temp_video_path) files' (pptxs w))
    ∧ files'.*2 = (pngs w).*2 ++ pre.
Proof.
  intros Hurl Hpath Hdl Hframes Hsplit Hpre Hraise.
  destruct (ocr_loop_raise image_to_string mktemp pre texts slide e post
              Hpre Hraise [] (pngs w)) as (files' & Hocr & Hfiles).
  exists files'. split; [|done].
  apply (main_ocr_raise phash image_to_string mktemp mktemp_pptx ydl_download
           str temp_video_path url video frames); try done.
  unfold default_hash_difference_threshold. rewrite Hsplit. exact Hocr.
Qed.

Lemma main_ocr_failure_witness :
  ∃ files',
    main example_phash example_ocr_late example_mktemp example_mktemp_pptx
         example_ydl id "tmpdir/video.mp4" "https://youtu.be/ok" true
         example_world
    = (Raise (ExnOcr TesseractError),
       World (ui example_world ++ calls_before_download
                ++ calls_before_extraction)
             (remove_file (videos example_world) "tmpdir/video.mp4") files'
             (pptxs example_world))
    ∧ files'.*2 = (pngs example_world).*2 ++ [0%nat].
Proof.
  apply (main_ocr_failure example_phash example_ocr_late example_mktemp
           example_mktemp_pptx example_ydl id "tmpdir/video.mp4"
           "https://youtu.be/ok" example_video [0; 30; 60]%nat
           [0%nat] [text_hello_raw] 60%nat TesseractError [] example_world).
  - reflexivity.
  - reflexivity.
  - reflexivity.
  - by vm_compute.
  - by vm_compute.
  - repeat constructor.
  - reflexivity.
Defined.

(** X21.  Whatever the inputs, the only exception that ends [main] is one
    the OCR raised on a slide: the sampling never divides by zero and every
    file [main] opens has been written before. *)
Theorem main_raises_only_ocr {Frame Eocr Edl}
    (phash : Frame → ImageHash.t)
    (image_to_string : Frame → result Eocr pystr)
    (mktemp mktemp_pptx : nat → string)
    (ydl_download : string → result Edl (VideoCapture Frame))
    (str : Edl → string) (temp_video_path url : string) (button : bool)
    (w : world Frame) (x : main_exn Eocr) :
  (main phash image_to_string mktemp mktemp_pptx ydl_download str
        temp_video_path url button w).1 = Raise x →
  ∃ e slide, x = ExnOcr e ∧ image_to_string slide = Raise e.
Proof.
  intros Hraise.
  destruct (truthy url) eqn:Hurl;
    [|by rewrite main_idle in Hraise by (by left)].
  destruct button; [|by rewrite main_idle in Hraise by (by right)].
  destruct (ydl_download url) as [video|e] eqn:Hdl;
    [|by rewrite (main_download_raise _ _ _ _ _ _ _ _ e) in Hraise].
  destruct (truthy temp_video_path) eqn:Hpath;
    [|by rewrite (main_empty_path _ _ _ _ _ _ _ _ video) in Hraise].
  destruct (extract_frames_nonzero_Ok video 30) as [frames Hframes]; [done|].
  pose proof (extract_text_outcome image_to_string mktemp
                (get_unique_slides phash frames default_hash_difference_threshold)
                (pngs w)) as Hout.
  destruct (extract_text_from_slides _ _ _ _) as [[records|e] files'] eqn:Hocr.
  - destruct Hout as [images Hread].
    by rewrite (main_ocr_ok _ _ _ _ _ _ _ _ video frames records images files')
      in Hraise.
  - destruct Hout as (slide & _ & Hslide).
    rewrite (main_ocr_raise _ _ _ _ _ _ _ _ video frames e files') in Hraise
      by done.
    injection Hraise as <-. by exists e, slide.
Qed.

Lemma main_raises_only_ocr_witness :
  ∃ e slide, ExnOcr TesseractError = ExnOcr e ∧ example_ocr_late slide = Raise e.
Proof.
  apply (main_raises_only_ocr example_phash example_ocr_late example_mktemp
           example_mktemp_pptx example_ydl id "tmpdir/video.mp4"
           "https://youtu.be/ok" true example_world (ExnOcr TesseractError)).
  by vm_compute.
Defined.

(** X22.  Once the button is pressed on a URL, the video [main] downloads
    into its temporary directory is gone when [main] ends, however it
    ends. *)
Theorem main_removes_video {Frame Eocr Edl}
    (phash : Frame → ImageHash.t)
    (image_to_string : Frame → result Eocr pystr)
    (mktemp mktemp_pptx : nat → string)
    (ydl_download : string → result Edl (VideoCapture Frame))
    (str : Edl → string) (temp_video_path url : string) (w : world Frame) :
  truthy url = true →
  read_file (videos (main phash image_to_string mktemp mktemp_pptx ydl_download
                       str temp_video_path url true w).2) temp_video_path
  = None.
Proof. apply main_video_removed. Qed.

Lemma main_removes_video_witness :
  read_file (videos (main example_phash example_ocr_late example_mktemp
                       example_mktemp_pptx example_ydl id "tmpdir/video.mp4"
                       "https://youtu.be/ok" true example_world).2)
            "tmpdir/video.mp4"
  = None.
Proof.
  apply (main_removes_video example_phash example_ocr_late example_mktemp
           example_mktemp_pptx example_ydl id "tmpdir/video.mp4"
           "https://youtu.be/ok" example_world).
  reflexivity.
Defined.

(** * [download_video] *)

(** X23.  [download_video] never raises.  It returns the output path
    exactly when the download returned, and then the video is at that path;
    it returns [None] exactly when the download raised, and then no video
    is written and the page gets an error message.  Pictures and
    presentations are never touched. *)
Theorem download_video_never_raises {Frame Edl E}
    (ydl_download : string → result Edl (VideoCapture Frame))
    (str : Edl → string) (url output_path : string) (w : world Frame) :
  ∃ r w',
    download_video (E:=E) ydl_download str url output_path w = (Ok r, w')
    ∧ (r = Some output_path ↔ ∃ video, ydl_download url = Ok video)
    ∧ (r = None ↔ ∃ e, ydl_download url = Raise e)
    ∧ (∀ video, ydl_download url = Ok video →
         read_file (videos w') output_path = Some video ∧ ui w' = ui w)
    ∧ (∀ e, ydl_download url = Raise e →
         videos w' = videos w
         ∧ ui w' = ui w ++ [st_error "Failed to download video. Please check the URL or try again later.";
                            py_print (String.append "Error: " (str e))])
    ∧ pngs w' = pngs w ∧ pptxs w' = pptxs w.
Proof.
  unfold download_video, try_except, ydl_run, mbind, io_bind, show.
  destruct (ydl_download url) as [video|e]; simpl; eexists _, _;
    (split; [reflexivity|]); simpl.
  - split; [split; [by exists video|done]|].
    split; [split; [done|by intros [? ?]]|].
    split; [|by split; [intros ? [=]|]].
    intros ? [= <-]. split; [|done].
    rewrite read_file_app. simpl. by rewrite bool_decide_eq_true_2.
  - split; [split; [done|by intros [? ?]]|].
    split; [split; [by exists e|done]|].
    split; [by intros ? [=]|].
    split; [|done]. intros ? [= <-]. split; [done|]. by rewrite <- app_assoc.
Qed.
